(** * Paws & Hugs pet adoption API

    A shallow embedding of [main.py]: the status report ([test_database]),
    the public pet view ([PetOut.from_mongo]), the seeding routine
    ([seed_pets]), the catalogue query ([list_pets]) and the adoption
    request intake ([create_adoption_request]), followed by the properties
    proved about them.

    Conventions of the embedding.
    - A Python [str] is a [string]; a character is an [ascii].  The status
      labels that carry pictographs are kept as the bytes of the source
      file and are never inspected.
    - A stored number is an integer or a double; a double is carried as
      the exact rational it denotes ([Q]), and an integer becomes a double
      by rounding where the program asks for a float.
    - A stored document is typed by the schema of its collection: a key is
      missing, holds null, or holds a value of the type the schema gives
      it.
    - The module-level handle [db], the server behind it, the process
      environment and the list of requests sent to the server form the
      [world] that every endpoint receives and returns. *)

From Stdlib Require Import String Ascii List NArith ZArith QArith Lia Bool.
From Stdlib Require Import Permutation.
Import ListNotations.

Close Scope Q_scope.
Local Open Scope string_scope.
Local Open Scope list_scope.

(** ** Text *)

Module Text.

Definition is_upper (c : ascii) : bool :=
  let n := N_of_ascii c in ((65 <=? n) && (n <=? 90))%N.

(** [str.lower] on the ASCII range. *)
Definition lower_char (c : ascii) : ascii :=
  if is_upper c then ascii_of_N (N_of_ascii c + 32) else c.

Fixpoint lower (s : string) : string :=
  match s with
  | EmptyString => EmptyString
  | String c s' => String (lower_char c) (lower s')
  end.

(** [needle in haystack]. *)
Fixpoint contains (needle haystack : string) : bool :=
  prefix needle haystack ||
  match haystack with
  | EmptyString => false
  | String _ rest => contains needle rest
  end.

(** "contains substring, ignoring case". *)
Definition icontains (needle haystack : string) : bool :=
  contains (lower needle) (lower haystack).

(** [s[:n]]. *)
Definition take (n : nat) (s : string) : string := substring 0 n s.

(** Truthiness of a [str]: only the empty string is false. *)
Definition nonempty (s : string) : bool :=
  match s with EmptyString => false | String _ _ => true end.

(** Truthiness of an [Optional[str]]: [None] and [""] are false. *)
Definition truthy (o : option string) : bool :=
  match o with Some s => nonempty s | None => false end.

End Text.

(** ** bson.ObjectId

    An identifier is twelve bytes, read here as a number below [16^24],
    and [str(oid)] prints its 24 lower-case hexadecimal digits.
    [ObjectId(s)] takes a string of 24 characters and reads it with
    [bytes.fromhex], which takes two hexadecimal digits (in either case)
    for a byte and skips ASCII whitespace before a byte; it raises
    [InvalidId] on any other string.  With whitespace among the 24
    characters fewer than twelve bytes are read: such a binary is no
    identifier of any stored document, and is numbered here from [16^24]
    up, apart from every twelve-byte identifier. *)

Module ObjectId.

Definition t := N.

Definition width : nat := 24.
Definition bound : N := 16 ^ 24.

Definition hex_value (c : ascii) : option N :=
  let n := N_of_ascii c in
  if ((48 <=? n) && (n <=? 57))%N then Some (n - 48)%N
  else if ((97 <=? n) && (n <=? 102))%N then Some (n - 87)%N
  else if ((65 <=? n) && (n <=? 70))%N then Some (n - 55)%N
  else None.

Definition hex_digit (d : N) : ascii :=
  ascii_of_N (if (d <? 10)%N then 48 + d else 87 + d)%N.

(** One more digit read into the number read so far. *)
Definition shift_in (acc : option N) (c : ascii) : option N :=
  match acc, hex_value c with
  | Some a, Some d => Some (16 * a + d)%N
  | _, _ => None
  end.

Definition of_hex (cs : list ascii) : option N :=
  fold_left shift_in cs (Some 0%N).

(** [w] digits of [n], most significant first. *)
Fixpoint to_hex (w : nat) (n : N) : list ascii :=
  match w with
  | O => []
  | S w' => to_hex w' (n / 16) ++ [hex_digit (n mod 16)]
  end.

(** [Py_ISSPACE]: space, and tab to carriage return. *)
Definition is_space (c : ascii) : bool :=
  let n := N_of_ascii c in
  ((n =? 32) || ((9 <=? n) && (n <=? 13)))%N.

(** [bytes.fromhex]: whitespace is skipped before a byte, never inside
    one; a character that is neither makes it fail. *)
Fixpoint fromhex (cs : list ascii) : option (list N) :=
  match cs with
  | [] => Some []
  | c :: rest =>
      if is_space c then fromhex rest
      else
        match hex_value c, rest with
        | Some top, c' :: rest' =>
            match hex_value c', fromhex rest' with
            | Some bot, Some bytes => Some ((16 * top + bot)%N :: bytes)
            | _, _ => None
            end
        | _, _ => None
        end
  end.

(** The bytes read as one number, most significant first. *)
Definition bytes_value (bytes : list N) : N :=
  fold_left (fun acc b => (256 * acc + b)%N) bytes 0%N.

(** Twelve bytes are the identifier they spell; fewer bytes are numbered
    above every identifier, by their length and their value. *)
Definition of_bytes (bytes : list N) : t :=
  if Nat.eqb (length bytes) 12 then bytes_value bytes
  else (bound + (256 ^ N.of_nat (length bytes) + bytes_value bytes))%N.

(** [ObjectId(s)]: [None] stands for [InvalidId]. *)
Definition parse (s : string) : option t :=
  if Nat.eqb (String.length s) width
  then match fromhex (list_ascii_of_string s) with
       | Some bytes => Some (of_bytes bytes)
       | None => None
       end
  else None.

(** [str(oid)]. *)
Definition str (oid : t) : string :=
  string_of_list_ascii (to_hex width oid).

End ObjectId.

(** ** Documents *)

(** What a document holds under a key. *)
Inductive field (A : Type) : Type :=
| Missing
| Null
| Val (a : A).
Arguments Missing {A}.
Arguments Null {A}.
Arguments Val {A} a.

(** [doc.get(key)]: a missing key and a null both read as [None]. *)
Definition get {A} (f : field A) : option A :=
  match f with Val a => Some a | _ => None end.

(** [doc.get(key, default)]: only a missing key takes the default. *)
Definition get_default {A} (f : field A) (default : A) : option A :=
  match f with Missing => Some default | Null => None | Val a => Some a end.

Definition field_map {A B} (g : A -> B) (f : field A) : field B :=
  match f with Missing => Missing | Null => Null | Val a => Val (g a) end.

(** Scalars as the query language sees them. *)
Inductive value : Type :=
| VBool (b : bool)
| VNum (q : Q)
| VStr (s : string).

Definition value_eqb (v1 v2 : value) : bool :=
  match v1, v2 with
  | VBool a, VBool b => Bool.eqb a b
  | VNum a, VNum b => Qeq_bool a b
  | VStr a, VStr b => String.eqb a b
  | _, _ => false
  end.

(** A stored number: a Python [int] or a [float]. *)
Inductive number : Type :=
| Int (z : Z)
| Double (q : Q).

(** The number as the query language compares it. *)
Definition number_value (n : number) : Q :=
  match n with Int z => inject_Z z | Double q => q end.

(** [float(z)]: the nearest double, ties to the even one.  Below [2^53]
    in size every integer is a double; above, the integer keeps its 53
    leading bits. *)
Definition round53 (z : Z) : Z :=
  let a := Z.abs z in
  if (a <? 2 ^ 53)%Z then z
  else
    let e := (Z.log2 a - 52)%Z in
    let q := (a / 2 ^ e)%Z in
    let r := (a mod 2 ^ e)%Z in
    let half := (2 ^ (e - 1))%Z in
    let q' :=
      if (r <? half)%Z then q
      else if (half <? r)%Z then (q + 1)%Z
      else if Z.even q then q else (q + 1)%Z in
    (Z.sgn z * (q' * 2 ^ e))%Z.

(** The value a [float] field takes from a stored number: a double as it
    is, an integer as the double nearest to it, and none from an integer
    beyond the doubles, which the field refuses. *)
Definition to_float (n : number) : option Q :=
  match n with
  | Int z =>
      if (Z.abs (round53 z) <? 2 ^ 1024)%Z
      then Some (inject_Z (round53 z))
      else None
  | Double q => Some q
  end.

(** A pet as the seeding routine writes it (the [Pet] schema). *)
Module Pet.

Record t : Type := mk {
  name : field string;
  species : field string;
  age_years : field number;
  gender : field string;
  size : field string;
  description : field string;
  photo_url : field string;
  location : field string;
  is_adopted : field bool }.

(** The value under a key, for the query language. *)
Definition lookup (p : t) (key : string) : field value :=
  if key =? "name" then field_map VStr (name p)
  else if key =? "species" then field_map VStr (species p)
  else if key =? "age_years"
       then field_map (fun n => VNum (number_value n)) (age_years p)
  else if key =? "gender" then field_map VStr (gender p)
  else if key =? "size" then field_map VStr (size p)
  else if key =? "description" then field_map VStr (description p)
  else if key =? "photo_url" then field_map VStr (photo_url p)
  else if key =? "location" then field_map VStr (location p)
  else if key =? "is_adopted" then field_map VBool (is_adopted p)
  else Missing.

End Pet.

(** Modelled from the spec: the [Adoptionrequest] schema of [schemas.py],
    whose source is not available.  The spec gives it a required [pet_id]
    referring to a pet identifier, and requester fields that this program
    never looks into. *)
Module Adoptionrequest.

Record t : Type := mk {
  pet_id : string;
  requester : list (string * string) }.

Fixpoint assoc (key : string) (kvs : list (string * string)) : field value :=
  match kvs with
  | [] => Missing
  | (k, v) :: rest => if key =? k then Val (VStr v) else assoc key rest
  end.

Definition lookup (r : t) (key : string) : field value :=
  if key =? "pet_id" then Val (VStr (pet_id r)) else assoc key (requester r).

End Adoptionrequest.

(** A document as the store holds it: the body together with the [_id]
    the store gave it. *)
Record document (B : Type) : Type := Document {
  _id : ObjectId.t;
  body : B }.
Arguments Document {B} _ _.
Arguments _id {B} _.
Arguments body {B} _.

(** ** The query language

    The filter documents this program builds: a dictionary whose entries
    are a key with a condition on the value under it, or ["$or"] with a
    list of one-key dictionaries.  Entries are kept in insertion order. *)

Inductive cond : Type :=
| Eq (v : value)                        (* {key: v} *)
| Regex (pattern options : string).     (* {key: {"$regex": p, "$options": o}} *)

Inductive clause : Type :=
| Field (key : string) (c : cond)
| Or (alternatives : list (string * cond)).

Definition filter : Type := list clause.

Fixpoint sequence {A} (l : list (option A)) : option (list A) :=
  match l with
  | [] => Some []
  | None :: _ => None
  | Some a :: rest =>
      match sequence rest with Some r => Some (a :: r) | None => None end
  end.

Section Matching.

(** The server's regular-expression engine: a pattern and its options
    compile to a search over a subject ("matches somewhere in"), or are
    refused as invalid. *)
Variable regex : string -> string -> option (string -> bool).

(** Equality holds on a present, equal value; a pattern is searched in a
    present string; a missing key, a null or another type satisfies
    neither. *)
Definition compile_cond (c : cond) : option (field value -> bool) :=
  match c with
  | Eq v =>
      Some (fun f => match f with Val v' => value_eqb v' v | _ => false end)
  | Regex pattern options =>
      match regex pattern options with
      | Some search =>
          Some (fun f => match f with Val (VStr s) => search s | _ => false end)
      | None => None
      end
  end.

Definition compile_entry (e : string * cond)
  : option ((string -> field value) -> bool) :=
  match compile_cond (snd e) with
  | Some test => Some (fun doc => test (doc (fst e)))
  | None => None
  end.

Definition compile_clause (c : clause)
  : option ((string -> field value) -> bool) :=
  match c with
  | Field key c => compile_entry (key, c)
  | Or alternatives =>
      match sequence (map compile_entry alternatives) with
      | Some tests => Some (fun doc => existsb (fun test => test doc) tests)
      | None => None
      end
  end.

(** All entries of a filter must hold. *)
Definition compile (f : filter) : option ((string -> field value) -> bool) :=
  match sequence (map compile_clause f) with
  | Some tests => Some (fun doc => forallb (fun test => test doc) tests)
  | None => None
  end.

End Matching.

(** ** The store and the world *)

Record store : Type := Store {
  pet : list (document Pet.t);
  adoptionrequest : list (document Adoptionrequest.t);
  other_collections : list string;
  next_oid : N }.

(** The server answers from its contents, or every request to it fails
    with the driver's error. *)
Inductive server : Type :=
| Up (contents : store)
| Down (reason : string).

Module Database.
Record t : Type := mk {
  name : string;
  host : server }.
End Database.

(** Requests sent to the server. *)
Inductive request : Type :=
| CountDocuments (collection : string)
| Find (collection : string) (f : filter)
| FindOne (collection : string) (oid : ObjectId.t)
| InsertOne (collection : string)
| ListCollectionNames.

(** The world of an endpoint.  [db] is the handle that [database.py]
    exports, [None] when the store is not configured; [environ] is the
    process environment; [sent] lists the requests sent to the server so
    far. *)
Record world : Type := World {
  db : option Database.t;
  environ : string -> option string;
  sent : list request }.

Inductive exn : Type :=
| HTTPException (status_code : Z) (detail : string)
| ValidationError (missing : list string)
| Exception (message : string).

(** [str(e)]. *)
Definition exn_str (e : exn) : string :=
  match e with
  | HTTPException _ detail => detail
  | ValidationError _ => "validation error for PetOut"
  | Exception message => message
  end.

(** ** Computations: a state over the world, with exceptions *)

Definition result (A : Type) : Type := (exn + A)%type.

Definition M (A : Type) : Type := world -> result A * world.

Definition ret {A} (a : A) : M A := fun w => (inr a, w).

Definition raise {A} (e : exn) : M A := fun w => (inl e, w).

Definition bind {A B} (m : M A) (k : A -> M B) : M B :=
  fun w =>
    match m w with
    | (inr a, w') => k a w'
    | (inl e, w') => (inl e, w')
    end.

Notation "x <- m ;; k" := (bind m (fun x => k))
  (at level 61, m at next level, right associativity).
Notation "m ;;; k" := (bind m (fun _ => k))
  (at level 61, right associativity).

(** [try: m  except Exception as e: handler(e)]. *)
Definition try_except {A} (m : M A) (handler : exn -> M A) : M A :=
  fun w =>
    match m w with
    | (inr a, w') => (inr a, w')
    | (inl e, w') => handler e w'
    end.

(** [for x in xs: f(x)]. *)
Fixpoint for_each {A B} (xs : list A) (f : A -> M B) : M unit :=
  match xs with
  | [] => ret tt
  | x :: rest => f x ;;; for_each rest f
  end.

(** [[f(x) for x in xs]] where [f] may raise: the first exception ends
    the comprehension. *)
Fixpoint collect {A B} (f : A -> result B) (xs : list A) : result (list B) :=
  match xs with
  | [] => inr []
  | x :: rest =>
      match f x with
      | inl e => inl e
      | inr b =>
          match collect f rest with
          | inl e => inl e
          | inr bs => inr (b :: bs)
          end
      end
  end.

Definition comprehension {A B} (f : A -> result B) (xs : list A)
  : M (list B) :=
  fun w => (collect f xs, w).

Definition the_db : M (option Database.t) := fun w => (inr (db w), w).

Definition getenv (key : string) : M (option string) :=
  fun w => (inr (environ w key), w).

(** ** Collections and the driver *)

Record collection (B : Type) : Type := Collection {
  coll_name : string;
  docs : store -> list (document B);
  with_docs : list (document B) -> store -> store;
  lookup : B -> string -> field value }.
Arguments coll_name {B} _.
Arguments docs {B} _ _.
Arguments with_docs {B} _ _ _.
Arguments lookup {B} _ _ _.

(** [db["pet"]]. *)
Definition pets : collection Pet.t :=
  {| coll_name := "pet";
     docs := pet;
     with_docs := fun l s =>
       Store l (adoptionrequest s) (other_collections s) (next_oid s);
     lookup := Pet.lookup |}.

(** [db["adoptionrequest"]]. *)
Definition adoptionrequests : collection Adoptionrequest.t :=
  {| coll_name := "adoptionrequest";
     docs := adoptionrequest;
     with_docs := fun l s =>
       Store (pet s) l (other_collections s) (next_oid s);
     lookup := Adoptionrequest.lookup |}.

(** One round trip: the request is sent through the handle, and answered
    from the contents when the server is up. *)
Definition round_trip {A} (r : request) (answer : store -> result A * store)
  : M A :=
  fun w =>
    match db w with
    | None => (inl (Exception "Database not available"), w)
    | Some d =>
        let sent' := sent w ++ [r] in
        match Database.host d with
        | Down reason => (inl (Exception reason), World (db w) (environ w) sent')
        | Up s =>
            let (a, s') := answer s in
            (a, World (Some (Database.mk (Database.name d) (Up s')))
                      (environ w) sent')
        end
    end.

Definition count_documents {B} (c : collection B) : M Z :=
  round_trip (CountDocuments (coll_name c))
    (fun s => (inr (Z.of_nat (length (docs c s))), s)).

Fixpoint first_with_id {B} (oid : ObjectId.t) (l : list (document B))
  : option (document B) :=
  match l with
  | [] => None
  | d :: rest => if (_id d =? oid)%N then Some d else first_with_id oid rest
  end.

(** [find_one({"_id": oid})]. *)
Definition find_one {B} (c : collection B) (oid : ObjectId.t)
  : M (option (document B)) :=
  round_trip (FindOne (coll_name c) oid)
    (fun s => (inr (first_with_id oid (docs c s)), s)).

(** The store assigns the identifier: the next one of its counter. *)
Definition insert_one {B} (c : collection B) (data : B) : M ObjectId.t :=
  round_trip (InsertOne (coll_name c))
    (fun s =>
       let oid := next_oid s in
       let s' := with_docs c (docs c s ++ [Document oid data]) s in
       (inr oid,
        Store (pet s') (adoptionrequest s') (other_collections s')
              (N.succ oid))).

(** A collection exists once it holds a document. *)
Definition list_collection_names : M (list string) :=
  round_trip ListCollectionNames
    (fun s =>
       (inr (match pet s with [] => [] | _ :: _ => ["pet"] end
             ++ match adoptionrequest s with
                | [] => []
                | _ :: _ => ["adoptionrequest"]
                end
             ++ other_collections s), s)).

Section Find.

Variable regex : string -> string -> option (string -> bool).

(** [find(filter)]: the documents that satisfy the filter, in the order
    of the collection; an invalid pattern fails the whole query. *)
Definition find {B} (c : collection B) (f : filter) : M (list (document B)) :=
  round_trip (Find (coll_name c) f)
    (fun s =>
       match compile regex f with
       | Some test =>
           (inr (List.filter (fun d => test (lookup c (body d))) (docs c s)),
            s)
       | None => (inl (Exception "Regular expression is invalid"), s)
       end).

(** Modelled from the spec: [get_documents] of [database.py], whose
    source is not available; the spec's "find-many-by-predicate" on a
    collection. *)
Definition get_documents {B} (c : collection B) (filter_dict : filter)
  : M (list (document B)) :=
  find c filter_dict.

End Find.

(** Modelled from the spec: [create_document] of [database.py], whose
    source is not available; the spec's "insert-one", giving back the text
    of the identifier the store assigned. *)
Definition create_document {B} (c : collection B) (data : B) : M string :=
  oid <- insert_one c data ;;
  ret (ObjectId.str oid).

(** ** main.py *)

(** *** [test_database] *)

Module StatusReport.
Record t : Type := mk {
  backend : string;
  database : string;
  database_url : option string;
  database_name : option string;
  connection_status : string;
  collections : list string }.
End StatusReport.

Definition connected_but_error : string := "⚠️  Connected but Error: ".
Definition error_label : string := "❌ Error: ".

Definition test_database : M StatusReport.t :=
  let response :=
    StatusReport.mk "✅ Running" "❌ Not Available" None None
                    "Not Connected" [] in
  response <-
    try_except
      (handle <- the_db ;;
       match handle with
       | Some d =>
           let response :=
             StatusReport.mk (StatusReport.backend response)
               "✅ Available" (Some "✅ Configured")
               (Some (Database.name d)) "Connected"
               (StatusReport.collections response) in
           try_except
             (collections <- list_collection_names ;;
              ret (StatusReport.mk (StatusReport.backend response)
                     "✅ Connected & Working"
                     (StatusReport.database_url response)
                     (StatusReport.database_name response)
                     (StatusReport.connection_status response)
                     (firstn 10 collections)))
             (fun e =>
                ret (StatusReport.mk (StatusReport.backend response)
                       (connected_but_error ++ Text.take 50 (exn_str e))
                       (StatusReport.database_url response)
                       (StatusReport.database_name response)
                       (StatusReport.connection_status response)
                       (StatusReport.collections response)))
       | None =>
           ret (StatusReport.mk (StatusReport.backend response)
                  "⚠️  Available but not initialized"
                  (StatusReport.database_url response)
                  (StatusReport.database_name response)
                  (StatusReport.connection_status response)
                  (StatusReport.collections response))
       end)
      (fun e =>
         ret (StatusReport.mk (StatusReport.backend response)
                (error_label ++ Text.take 50 (exn_str e))
                (StatusReport.database_url response)
                (StatusReport.database_name response)
                (StatusReport.connection_status response)
                (StatusReport.collections response))) ;;
  url <- getenv "DATABASE_URL" ;;
  name <- getenv "DATABASE_NAME" ;;
  ret (StatusReport.mk (StatusReport.backend response)
         (StatusReport.database response)
         (Some (if Text.truthy url then "✅ Set" else "❌ Not Set"))
         (Some (if Text.truthy name then "✅ Set" else "❌ Not Set"))
         (StatusReport.connection_status response)
         (StatusReport.collections response)).

(** *** [PetOut] *)

Module PetOut.

Record t : Type := mk {
  id : string;
  name : string;
  species : string;
  age_years : Q;
  gender : string;
  size : string;
  description : option string;
  photo_url : option string;
  location : option string;
  is_adopted : bool }.

(** The keyword arguments that fail the declared type of their field:
    a field declared without [Optional] does not take [None]. *)
Definition required {A} (loc : string) (a : option A) : list string :=
  match a with Some _ => [] | None => [loc] end.

(** [PetOut(id=..., name=..., ...)]: the model class validates its
    arguments against the declared field types and raises
    [ValidationError], naming every field that fails, or builds the
    view; the [float] field takes a number through [to_float]. *)
Definition init (id : string) (name species : option string)
    (age_years : option number) (gender size : option string)
    (description photo_url location : option string)
    (is_adopted : option bool) : result t :=
  let age := match age_years with Some a => to_float a | None => None end in
  match name, species, age, gender, size, is_adopted with
  | Some n, Some sp, Some a, Some g, Some sz, Some ad =>
      inr (mk id n sp a g sz description photo_url location ad)
  | _, _, _, _, _, _ =>
      inl (ValidationError
             (required "name" name ++ required "species" species
              ++ required "age_years" age ++ required "gender" gender
              ++ required "size" size ++ required "is_adopted" is_adopted))
  end.

Definition from_mongo (doc : document Pet.t) : result t :=
  init (ObjectId.str (_id doc))
       (get (Pet.name (body doc)))
       (get (Pet.species (body doc)))
       (get (Pet.age_years (body doc)))
       (get (Pet.gender (body doc)))
       (get (Pet.size (body doc)))
       (get (Pet.description (body doc)))
       (get (Pet.photo_url (body doc)))
       (get (Pet.location (body doc)))
       (get_default (Pet.is_adopted (body doc)) false).

End PetOut.

(** *** [seed_pets] *)

Module SeedReport.
Record t : Type := mk { message : string; count : Z }.
End SeedReport.

Definition sample_pets : list Pet.t :=
  [ Pet.mk (Val "Mocha") (Val "Dog") (Val (Double (3 # 2)%Q))
      (Val "Female")
      (Val "Small") (Val "Sweet, snuggly pup who loves belly rubs.")
      (Val "https://images.unsplash.com/photo-1543466835-00a7907e9de1?w=900&q=80&auto=format&fit=crop")
      (Val "Sunnyvale Shelter") (Val false);
    Pet.mk (Val "Miso") (Val "Cat") (Val (Int 3)) (Val "Male")
      (Val "Small") (Val "Calm lap cat, purr motor included.")
      (Val "https://images.unsplash.com/photo-1518791841217-8f162f1e1131?w=900&q=80&auto=format&fit=crop")
      (Val "Palo Alto Rescue") (Val false);
    Pet.mk (Val "Taro") (Val "Rabbit") (Val (Int 2)) (Val "Female")
      (Val "Small") (Val "Gentle bun who loves leafy greens.")
      (Val "https://images.unsplash.com/photo-1548767797-d8c844163c4c?w=900&q=80&auto=format&fit=crop")
      (Val "Mountain View Haven") (Val false) ].

Definition seed_pets : M SeedReport.t :=
  handle <- the_db ;;
  match handle with
  | None => raise (HTTPException 500 "Database not configured")
  | Some _ =>
      count <- count_documents pets ;;
      if (count >? 0)%Z
      then ret (SeedReport.mk "Already seeded" count)
      else
        for_each sample_pets (fun p => create_document pets p) ;;;
        ret (SeedReport.mk "Seeded" (Z.of_nat (length sample_pets)))
  end.

(** *** [list_pets] *)

Section Catalogue.

Variable regex : string -> string -> option (string -> bool).

(** The filter document built from the query parameters. *)
Definition filter_of (species size q : option string) : filter :=
  let filter_q := [Field "is_adopted" (Eq (VBool false))] in
  let filter_q :=
    match species with
    | Some s => if Text.nonempty s
                then filter_q ++ [Field "species" (Eq (VStr s))]
                else filter_q
    | None => filter_q
    end in
  let filter_q :=
    match size with
    | Some s => if Text.nonempty s
                then filter_q ++ [Field "size" (Eq (VStr s))]
                else filter_q
    | None => filter_q
    end in
  match q with
  | Some p => if Text.nonempty p
              then filter_q ++ [Or [("name", Regex p "i");
                                    ("description", Regex p "i");
                                    ("location", Regex p "i")]]
              else filter_q
  | None => filter_q
  end.

Definition list_pets (species size q : option string) : M (list PetOut.t) :=
  docs <- get_documents regex pets (filter_of species size q) ;;
  comprehension PetOut.from_mongo docs.

End Catalogue.

(** *** [create_adoption_request] *)

Module AdoptionReceipt.
Record t : Type := mk { message : string; request_id : string }.
End AdoptionReceipt.

Definition create_adoption_request (req : Adoptionrequest.t)
  : M AdoptionReceipt.t :=
  handle <- the_db ;;
  match handle with
  | None => raise (HTTPException 500 "Database not configured")
  | Some _ =>
      match ObjectId.parse (Adoptionrequest.pet_id req) with
      | None => raise (HTTPException 400 "Invalid pet ID")
      | Some oid =>
          found <- find_one pets oid ;;
          match found with
          | None => raise (HTTPException 404 "Pet not found")
          | Some _ =>
              req_id <- create_document adoptionrequests req ;;
              ret (AdoptionReceipt.mk "Request received" req_id)
          end
      end
  end.

(** ** A small pattern engine

    An instance of the server's engine for the patterns made of literal
    characters and [.], on which it agrees with the server: a literal
    matches itself (in either case under option [i]), [.] matches any
    character but a line feed, and the pattern is searched anywhere in the
    subject.  A pattern with any other operator is beyond this engine,
    which refuses it. *)

Module Wildcard.

Definition operators : list ascii :=
  list_ascii_of_string "\^$*+?()[]{}|".

Definition is_operator (c : ascii) : bool :=
  existsb (Ascii.eqb c) operators.

Definition line_feed : ascii := "010"%char.

Definition char_matches (ignore_case : bool) (p c : ascii) : bool :=
  if Ascii.eqb p "."%char then negb (Ascii.eqb c line_feed)
  else if ignore_case
       then Ascii.eqb (Text.lower_char p) (Text.lower_char c)
       else Ascii.eqb p c.

Fixpoint matches_at (ignore_case : bool) (pattern subject : string) : bool :=
  match pattern, subject with
  | EmptyString, _ => true
  | String _ _, EmptyString => false
  | String p pattern', String c subject' =>
      char_matches ignore_case p c && matches_at ignore_case pattern' subject'
  end.

Fixpoint search (ignore_case : bool) (pattern subject : string) : bool :=
  matches_at ignore_case pattern subject ||
  match subject with
  | EmptyString => false
  | String _ rest => search ignore_case pattern rest
  end.

Definition regex (pattern options : string) : option (string -> bool) :=
  if existsb is_operator (list_ascii_of_string pattern) then None
  else Some (search (Text.contains "i" options) pattern).

(** A pattern of literal characters only. *)
Fixpoint literal (pattern : string) : bool :=
  match pattern with
  | EmptyString => true
  | String c rest =>
      negb (Ascii.eqb c "."%char) && negb (is_operator c) && literal rest
  end.

End Wildcard.

(** ** Worlds used in the examples *)

Definition no_environ : string -> option string := fun _ => None.

Definition empty_store : store := Store [] [] [] 0.

Definition fresh_world : world :=
  World (Some (Database.mk "paws" (Up empty_store))) no_environ [].

Definition seeded_world : world := snd (seed_pets fresh_world).

(** The documents of the pet collection behind the handle. *)
Definition stored_pets (w : world) : list (document Pet.t) :=
  match db w with
  | Some d => match Database.host d with Up s => pet s | Down _ => [] end
  | None => []
  end.

Definition rex : Pet.t :=
  Pet.mk (Val "Rex") (Val "Dog") (Val (Int 4)) (Val "Male") (Val "Large")
         Missing Missing (Val "Sunnyvale Shelter") (Val true).

(** The seeded store with one more pet, already adopted. *)
Definition world_with_adopted : world :=
  World (Some (Database.mk "paws"
                 (Up (Store (stored_pets seeded_world ++ [Document 3%N rex])
                            [] [] 4)))) no_environ [].

(** The documents that an empty collection holds after inserting [l] one by
    one, the counter being at [n]. *)
Fixpoint number_from {B} (n : N) (l : list B) : list (document B) :=
  match l with
  | [] => []
  | b :: rest => Document n b :: number_from (N.succ n) rest
  end.

(** Identifiers come from the counter: every stored identifier is below
    it, and the counter is within the twelve bytes. *)
Definition store_wf (s : store) : Prop :=
  (forall d, In d (pet s) -> (_id d < next_oid s)%N)
  /\ (forall d, In d (adoptionrequest s) -> (_id d < next_oid s)%N)
  /\ (next_oid s < ObjectId.bound)%N.

(** ** The properties as the specification words them *)

Definition option_any (test : string -> bool) (o : option string) : bool :=
  match o with Some s => test s | None => false end.

(** "Exact match on species/size; case-insensitive substring match on at
    least one of name/description/location when query given." *)
Definition satisfies_filters_as_specified (species size q : option string)
    (v : PetOut.t) : bool :=
  match species with Some s => PetOut.species v =? s | None => true end
  && match size with Some s => PetOut.size v =? s | None => true end
  && match q with
     | Some p =>
         Text.icontains p (PetOut.name v)
         || option_any (Text.icontains p) (PetOut.description v)
         || option_any (Text.icontains p) (PetOut.location v)
     | None => true
     end.

(** A key that [doc.get] reads as [None]. *)
Definition absent {A} (f : field A) : Prop := f = Missing \/ f = Null.

(** A pet document without a name, and one with the required keys only. *)
Definition nameless : document Pet.t :=
  Document 7%N
    (Pet.mk Missing (Val "Dog") (Val (Int 2)) (Val "Male") (Val "Large")
            (Val "Found near the park.") Missing (Val "Sunnyvale Shelter")
            (Val false)).

Definition bare : document Pet.t :=
  Document 8%N
    (Pet.mk (Val "Bo") (Val "Dog") (Val (Int 2)) (Val "Male") (Val "Large")
            Missing Missing Missing Missing).

(** "Any document missing required fields is not validated here: the
    mapping is pass-through": every document that the store returns for a
    query of [list_pets] maps to a view. *)
Definition mapping_is_pass_through : Prop :=
  forall doc : document Pet.t,
    Pet.is_adopted (body doc) = Val false ->
    exists v, PetOut.from_mongo doc = inr v.

(** The names that [list_collection_names] answers from a store. *)
Definition collection_names (s : store) : list string :=
  match pet s with [] => [] | _ :: _ => ["pet"] end
  ++ match adoptionrequest s with
     | [] => []
     | _ :: _ => ["adoptionrequest"]
     end
  ++ other_collections s.

(** A store with more collections than a report shows. *)
Definition crowded_store : store :=
  Store (stored_pets seeded_world) []
        ["c01"; "c02"; "c03"; "c04"; "c05"; "c06"; "c07"; "c08"; "c09";
         "c10"; "c11"; "c12"] 3.

(** * Properties *)

(** ** Text and identifiers *)

Lemma length_string_of_list (l : list ascii) :
  String.length (string_of_list_ascii l) = length l.
Proof. induction l as [|c l IH]; simpl; congruence. Qed.

Lemma length_substring_le (s : string) (n : nat) :
  String.length (substring 0 n s) <= n.
Proof.
  revert s; induction n as [|n IH]; intros [|c s]; simpl; try lia.
  specialize (IH s); lia.
Qed.

Lemma take_length (n : nat) (s : string) : String.length (Text.take n s) <= n.
Proof. apply length_substring_le. Qed.

Module ObjectIdFacts.
Import ObjectId.

Lemma hex_value_digit (d : N) : (d < 16)%N -> hex_value (hex_digit d) = Some d.
Proof.
  intros Hd.
  rewrite <- (N2Nat.id d).
  assert (Hn : N.to_nat d < 16) by lia.
  revert Hn; generalize (N.to_nat d); intros n Hn.
  do 16 (destruct n as [|n]; [reflexivity|]).
  lia.
Qed.

Lemma length_to_hex (w : nat) (n : N) : length (to_hex w n) = w.
Proof.
  revert n; induction w as [|w IH]; intros n; simpl; [reflexivity|].
  rewrite length_app, IH; simpl; lia.
Qed.

Lemma of_hex_to_hex (w : nat) (n : N) :
  (n < 16 ^ N.of_nat w)%N -> of_hex (to_hex w n) = Some n.
Proof.
  unfold of_hex.
  revert n; induction w as [|w IH]; intros n Hn.
  - simpl in *. f_equal. lia.
  - cbn [to_hex]. rewrite fold_left_app. cbn [fold_left].
    rewrite IH.
    + unfold shift_in.
      rewrite hex_value_digit by (apply N.mod_lt; lia).
      f_equal. rewrite (N.div_mod n 16) at 3 by lia. reflexivity.
    + apply N.Div0.div_lt_upper_bound.
      rewrite Nat2N.inj_succ, N.pow_succ_r' in Hn. exact Hn.
Qed.

Lemma str_length (oid : t) : String.length (str oid) = width.
Proof. unfold str. rewrite length_string_of_list. apply length_to_hex. Qed.

Lemma hex_not_space (c : ascii) (d : N) :
  hex_value c = Some d -> is_space c = false.
Proof.
  unfold hex_value, is_space. cbv zeta.
  generalize (N_of_ascii c). intros n.
  destruct (N.leb_spec 48 n), (N.leb_spec n 57), (N.leb_spec 97 n),
    (N.leb_spec n 102), (N.leb_spec 65 n), (N.leb_spec n 70);
    simpl; try discriminate; intros _;
    destruct (N.eqb_spec n 32), (N.leb_spec 9 n), (N.leb_spec n 13);
    simpl; try reflexivity; lia.
Qed.

Lemma shift_in_none (cs : list ascii) : fold_left shift_in cs None = None.
Proof. induction cs as [|c cs IH]; simpl; auto. Qed.

(** On digits alone, two by two, [fromhex] reads the bytes of the number
    that the digits spell. *)
Lemma fromhex_digits (n : nat) :
  forall (cs : list ascii) (a b : N),
    length cs = 2 * n ->
    fold_left shift_in cs (Some a) = Some b ->
    exists bytes,
      fromhex cs = Some bytes
      /\ length bytes = n
      /\ fold_left (fun acc x => (256 * acc + x)%N) bytes a = b.
Proof.
  induction n as [|n IH]; intros cs a b Hlen Hfold.
  - destruct cs; [|discriminate]. simpl in Hfold.
    injection Hfold as <-. exists []. auto.
  - destruct cs as [|c1 [|c2 rest]]; try (simpl in Hlen; lia).
    assert (Hstep : shift_in (shift_in (Some a) c1) c2
                    = match hex_value c1, hex_value c2 with
                      | Some top, Some bot =>
                          Some (16 * (16 * a + top) + bot)%N
                      | _, _ => None
                      end).
    { unfold shift_in. destruct (hex_value c1), (hex_value c2); reflexivity. }
    cbn [fold_left] in Hfold. rewrite Hstep in Hfold. clear Hstep.
    destruct (hex_value c1) as [top|] eqn:H1;
      [|rewrite shift_in_none in Hfold; discriminate].
    destruct (hex_value c2) as [bot|] eqn:H2;
      [|rewrite shift_in_none in Hfold; discriminate].
    destruct (IH rest _ b ltac:(simpl in Hlen; lia) Hfold)
      as [bytes [Hb [Hl Hv]]].
    exists ((16 * top + bot)%N :: bytes).
    simpl. rewrite (hex_not_space c1 top H1), H1, H2, Hb.
    split; [reflexivity|]. split; [simpl; congruence|].
    cbn [fold_left].
    replace (16 * (16 * a + top) + bot)%N
      with (256 * a + (16 * top + bot))%N in Hv by lia.
    exact Hv.
Qed.

(** Reading back the text of an identifier gives the identifier. *)
Lemma parse_str (oid : t) : (oid < bound)%N -> parse (str oid) = Some oid.
Proof.
  intros H. unfold parse. rewrite str_length, Nat.eqb_refl.
  unfold str. rewrite list_ascii_of_string_of_list_ascii.
  pose proof (of_hex_to_hex width oid H) as Hhex. unfold of_hex in Hhex.
  destruct (fromhex_digits 12 (to_hex width oid) 0%N oid
              (length_to_hex width oid) Hhex) as [bytes [Hb [Hl Hv]]].
  rewrite Hb. unfold of_bytes, bytes_value. rewrite Hl, Hv. reflexivity.
Qed.

(** 24 digits are read as the identifier they spell. *)
Lemma parse_digits (s : string) (oid : t) :
  String.length s = width ->
  of_hex (list_ascii_of_string s) = Some oid ->
  parse s = Some oid.
Proof.
  intros Hlen Hhex. unfold parse. rewrite Hlen, Nat.eqb_refl.
  assert (Hcs : length (list_ascii_of_string s) = 2 * 12).
  { rewrite <- (length_string_of_list (list_ascii_of_string s)).
    rewrite string_of_list_ascii_of_string. exact Hlen. }
  unfold of_hex in Hhex.
  destruct (fromhex_digits 12 (list_ascii_of_string s) 0%N oid Hcs Hhex)
    as [bytes [Hb [Hl Hv]]].
  rewrite Hb. unfold of_bytes, bytes_value. rewrite Hl, Hv. reflexivity.
Qed.

(** Fewer than twelve bytes are no identifier below the bound. *)
Lemma of_bytes_short (bytes : list N) :
  length bytes <> 12 -> (bound <= of_bytes bytes)%N.
Proof.
  intros H. unfold of_bytes.
  destruct (Nat.eqb_spec (length bytes) 12) as [E|_]; [contradiction|lia].
Qed.

(** Every byte read takes two characters, and whitespace takes more: the
    bytes are half the characters only when all of them are digits, which
    then spell the value of the bytes. *)
Lemma fromhex_count (n : nat) :
  forall (cs : list ascii) (bytes : list N),
    length cs <= n ->
    fromhex cs = Some bytes ->
    2 * length bytes <= length cs
    /\ (2 * length bytes = length cs ->
        forall a, fold_left shift_in cs (Some a)
                  = Some (fold_left (fun acc x => (256 * acc + x)%N) bytes a)).
Proof.
  induction n as [|n IH]; intros cs bytes Hn Hf.
  - destruct cs; [|simpl in Hn; lia]. simpl in Hf. injection Hf as <-.
    simpl. auto.
  - destruct cs as [|c rest]; [simpl in Hf; injection Hf as <-; simpl; auto|].
    simpl in Hf. destruct (is_space c) eqn:Hs.
    + destruct (IH rest bytes ltac:(simpl in Hn; lia) Hf) as [Hle _].
      simpl. split; lia.
    + destruct (hex_value c) as [top|] eqn:H1; [|discriminate].
      destruct rest as [|c' rest']; [discriminate|].
      destruct (hex_value c') as [bot|] eqn:H2; [|discriminate].
      destruct (fromhex rest') as [bs|] eqn:Hb; [|discriminate].
      injection Hf as <-.
      destruct (IH rest' bs ltac:(simpl in Hn; lia) Hb) as [Hle Heq].
      split; [simpl; lia|].
      intros E a. simpl in E.
      assert (Hstep : shift_in (shift_in (Some a) c) c'
                      = Some (256 * a + (16 * top + bot))%N).
      { unfold shift_in. rewrite H1, H2. f_equal. lia. }
      cbn [fold_left]. rewrite Hstep. apply Heq. lia.
Qed.

(** An identifier below the bound is read only from 24 digits, which
    spell it. *)
Lemma parse_proper (s : string) (oid : t) :
  parse s = Some oid -> (oid < bound)%N ->
  of_hex (list_ascii_of_string s) = Some oid.
Proof.
  unfold parse.
  destruct (Nat.eqb_spec (String.length s) width) as [Hlen|]; [|discriminate].
  destruct (fromhex (list_ascii_of_string s)) as [bytes|] eqn:Hf;
    [|discriminate].
  intros H Hb. injection H as <-.
  assert (Hl : length bytes = 12).
  { destruct (Nat.eq_dec (length bytes) 12) as [E|E]; [exact E|].
    pose proof (of_bytes_short bytes E). lia. }
  assert (Hcs : length (list_ascii_of_string s) = 24).
  { rewrite <- (length_string_of_list (list_ascii_of_string s)).
    rewrite string_of_list_ascii_of_string. exact Hlen. }
  assert (Hle : length (list_ascii_of_string s) <= 24) by lia.
  destruct (fromhex_count 24 (list_ascii_of_string s) bytes Hle Hf)
    as [_ Heq].
  assert (Hhalf : 2 * length bytes = length (list_ascii_of_string s)) by lia.
  unfold of_hex. rewrite (Heq Hhalf 0%N).
  unfold of_bytes, bytes_value. rewrite Hl. reflexivity.
Qed.

End ObjectIdFacts.

(** ** The query language *)

Lemma sequence_In {A} (l : list (option A)) (r : list A) (o : option A) :
  sequence l = Some r -> In o l -> exists a, o = Some a /\ In a r.
Proof.
  revert r; induction l as [|[x|] l IH]; intros r Hs Hin; simpl in *.
  - contradiction.
  - destruct (sequence l) as [r'|]; [|discriminate].
    inversion Hs; subst; clear Hs.
    destruct Hin as [<-|Hin].
    + exists x; simpl; auto.
    + destruct (IH r' eq_refl Hin) as [a [Ha Hr]]. exists a; simpl; auto.
  - discriminate.
Qed.

(** A document that passes a filter passes each of its entries. *)
Lemma compile_In regex (f : filter) test (c : clause) :
  compile regex f = Some test -> In c f ->
  exists tc, compile_clause regex c = Some tc
             /\ forall doc, test doc = true -> tc doc = true.
Proof.
  unfold compile.
  destruct (sequence (map (compile_clause regex) f)) as [tests|] eqn:E;
    [|discriminate].
  intros H Hin. inversion H; subst; clear H.
  apply (in_map (compile_clause regex)) in Hin.
  destruct (sequence_In _ _ _ E Hin) as [tc [Hc Hr]].
  exists tc; split; [exact Hc|].
  intros doc Hd. rewrite forallb_forall in Hd. apply Hd, Hr.
Qed.

Lemma value_eqb_bool (v : value) (b : bool) :
  value_eqb v (VBool b) = true -> v = VBool b.
Proof.
  destruct v as [a| |]; simpl; try discriminate.
  intros H. apply Bool.eqb_prop in H. congruence.
Qed.

Lemma value_eqb_str (v : value) (s : string) :
  value_eqb v (VStr s) = true -> v = VStr s.
Proof.
  destruct v as [| |a]; simpl; try discriminate.
  intros H. apply String.eqb_eq in H. congruence.
Qed.

Lemma field_eq_holds regex (key : string) (v : value) tc doc :
  compile_clause regex (Field key (Eq v)) = Some tc -> tc doc = true ->
  exists v', doc key = Val v' /\ value_eqb v' v = true.
Proof.
  cbn. intros H; inversion H; subst; clear H. simpl.
  destruct (doc key) as [| |v']; try discriminate. eauto.
Qed.

Lemma regex_entry_holds (search : string -> bool) (f : field value) :
  match f with Val (VStr s) => search s | _ => false end = true ->
  exists t, f = Val (VStr t) /\ search t = true.
Proof. destruct f as [| |[| |t]]; try discriminate. eauto. Qed.

Lemma or_regex_holds regex (p : string) tc :
  compile_clause regex
    (Or [("name", Regex p "i"); ("description", Regex p "i");
         ("location", Regex p "i")]) = Some tc ->
  exists search,
    regex p "i" = Some search
    /\ forall doc, tc doc = true ->
         (exists t, doc "name" = Val (VStr t) /\ search t = true)
         \/ (exists t, doc "description" = Val (VStr t) /\ search t = true)
         \/ (exists t, doc "location" = Val (VStr t) /\ search t = true).
Proof.
  cbn. unfold compile_entry. cbn.
  destruct (regex p "i") as [search|]; [|discriminate].
  cbn. intros H; inversion H; subst; clear H.
  exists search; split; [reflexivity|].
  intros doc Hd. cbn in Hd.
  rewrite orb_false_r in Hd.
  apply orb_true_iff in Hd. destruct Hd as [Hd|Hd].
  - left. apply regex_entry_holds, Hd.
  - apply orb_true_iff in Hd. destruct Hd as [Hd|Hd].
    + right; left. apply regex_entry_holds, Hd.
    + right; right. apply regex_entry_holds, Hd.
Qed.

(** ** Literal patterns

    On a pattern of literal characters the small engine, ignoring case, is
    the search for a substring, ignoring case. *)

Lemma matches_at_literal (p s : string) :
  Wildcard.literal p = true ->
  Wildcard.matches_at true p s = prefix (Text.lower p) (Text.lower s).
Proof.
  revert s; induction p as [|a p IH]; intros s Hl; simpl.
  - destruct s; reflexivity.
  - simpl in Hl. apply andb_true_iff in Hl. destruct Hl as [Ha Hl].
    apply andb_true_iff in Ha. destruct Ha as [Ha _].
    destruct s as [|c s]; simpl; [reflexivity|].
    unfold Wildcard.char_matches.
    apply negb_true_iff in Ha. rewrite Ha.
    destruct (ascii_dec (Text.lower_char a) (Text.lower_char c)) as [E|E].
    + rewrite E, Ascii.eqb_refl. simpl. apply IH, Hl.
    + apply Ascii.eqb_neq in E. rewrite E. reflexivity.
Qed.

Lemma search_literal (p s : string) :
  Wildcard.literal p = true ->
  Wildcard.search true p s = Text.icontains p s.
Proof.
  intros Hl. unfold Text.icontains.
  induction s as [|c s IH]; simpl.
  - rewrite (matches_at_literal p "" Hl). reflexivity.
  - rewrite (matches_at_literal p (String c s) Hl). simpl.
    rewrite IH. reflexivity.
Qed.

Lemma literal_has_no_operator (p : string) :
  Wildcard.literal p = true ->
  existsb Wildcard.is_operator (list_ascii_of_string p) = false.
Proof.
  induction p as [|c p IH]; simpl; [reflexivity|].
  intros H. apply andb_true_iff in H. destruct H as [Hc Hl].
  apply andb_true_iff in Hc. destruct Hc as [_ Hc].
  apply negb_true_iff in Hc. rewrite Hc. simpl. apply IH, Hl.
Qed.

Lemma wildcard_literal_is_substring (p : string) :
  Wildcard.literal p = true ->
  exists search,
    Wildcard.regex p "i" = Some search
    /\ forall s, search s = Text.icontains p s.
Proof.
  intros Hl. unfold Wildcard.regex.
  rewrite (literal_has_no_operator p Hl).
  eexists. split; [reflexivity|].
  intros s. apply (search_literal p s Hl).
Qed.

(** ** The filter that [list_pets] builds *)

Lemma filter_of_is_adopted (species size q : option string) :
  In (Field "is_adopted" (Eq (VBool false))) (filter_of species size q).
Proof.
  unfold filter_of.
  destruct species as [[|? ?]|], size as [[|? ?]|], q as [[|? ?]|]; simpl; auto.
Qed.

Lemma filter_of_species (species size q : option string) (s : string) :
  species = Some s -> s <> "" ->
  In (Field "species" (Eq (VStr s))) (filter_of species size q).
Proof.
  intros -> Hs. unfold filter_of.
  destruct s as [|c s]; [congruence|].
  destruct size as [[|? ?]|], q as [[|? ?]|]; simpl; auto.
Qed.

Lemma filter_of_size (species size q : option string) (s : string) :
  size = Some s -> s <> "" ->
  In (Field "size" (Eq (VStr s))) (filter_of species size q).
Proof.
  intros -> Hs. unfold filter_of.
  destruct s as [|c s]; [congruence|].
  destruct species as [[|? ?]|], q as [[|? ?]|]; simpl; auto 6.
Qed.

Lemma filter_of_query (species size q : option string) (p : string) :
  q = Some p -> p <> "" ->
  In (Or [("name", Regex p "i"); ("description", Regex p "i");
          ("location", Regex p "i")]) (filter_of species size q).
Proof.
  intros -> Hp. unfold filter_of.
  destruct p as [|c p]; [congruence|].
  destruct species as [[|? ?]|], size as [[|? ?]|]; simpl; auto 6.
Qed.

(** ** The view of a document *)

Lemma collect_Forall2 {A B} (f : A -> result B) (xs : list A) (out : list B) :
  collect f xs = inr out -> Forall2 (fun x b => f x = inr b) xs out.
Proof.
  revert out; induction xs as [|x xs IH]; intros out H; simpl in H.
  - inversion H; constructor.
  - destruct (f x) as [e|b] eqn:Hx; [discriminate|].
    destruct (collect f xs) as [e|bs]; [discriminate|].
    inversion H; subst. constructor; auto.
Qed.

Lemma Forall2_In_r {A B} (R : A -> B -> Prop) (xs : list A) (ys : list B) y :
  Forall2 R xs ys -> In y ys -> exists x, In x xs /\ R x y.
Proof.
  induction 1 as [|x y' xs ys Hxy _ IH]; simpl; [contradiction|].
  intros [<-|Hin]; [eauto|].
  destruct (IH Hin) as [x0 [? ?]]; eauto.
Qed.

(** What a view says of the document it was built from. *)
Lemma from_mongo_inr (doc : document Pet.t) (v : PetOut.t) :
  PetOut.from_mongo doc = inr v ->
  PetOut.id v = ObjectId.str (_id doc)
  /\ Pet.name (body doc) = Val (PetOut.name v)
  /\ Pet.species (body doc) = Val (PetOut.species v)
  /\ (exists a, Pet.age_years (body doc) = Val a
                /\ to_float a = Some (PetOut.age_years v))
  /\ Pet.gender (body doc) = Val (PetOut.gender v)
  /\ Pet.size (body doc) = Val (PetOut.size v)
  /\ PetOut.description v = get (Pet.description (body doc))
  /\ PetOut.photo_url v = get (Pet.photo_url (body doc))
  /\ PetOut.location v = get (Pet.location (body doc))
  /\ get_default (Pet.is_adopted (body doc)) false = Some (PetOut.is_adopted v).
Proof.
  unfold PetOut.from_mongo, PetOut.init. cbv zeta.
  destruct (Pet.name (body doc)); simpl; try discriminate.
  destruct (Pet.species (body doc)); simpl; try discriminate.
  destruct (Pet.age_years (body doc)) as [| |age]; simpl; try discriminate.
  destruct (to_float age) as [f|] eqn:Ef; try discriminate.
  destruct (Pet.gender (body doc)); simpl; try discriminate.
  destruct (Pet.size (body doc)); simpl; try discriminate.
  destruct (get_default (Pet.is_adopted (body doc)) false);
    simpl; try discriminate.
  intros H; inversion H; subst; clear H. simpl.
  repeat split. exists age. split; [reflexivity|exact Ef].
Qed.

(** What [list_pets] returned was selected by its filter from the stored
    pets and mapped to views. *)
Lemma list_pets_inr regex (species size q : option string) (w w' : world)
    (out : list PetOut.t) :
  list_pets regex species size q w = (inr out, w') ->
  exists test,
    compile regex (filter_of species size q) = Some test
    /\ collect PetOut.from_mongo
         (List.filter (fun d => test (Pet.lookup (body d))) (stored_pets w))
       = inr out.
Proof.
  unfold list_pets, get_documents, find, round_trip, bind, comprehension,
    stored_pets.
  destruct (db w) as [[name [s|reason]]|]; simpl; try discriminate.
  destruct (compile regex (filter_of species size q)) as [test|];
    simpl; try discriminate.
  intros H; inversion H; subst. exists test; auto.
Qed.

(** Every returned view is the view of a stored pet that passed every
    entry of the filter. *)
Lemma list_pets_origin regex (species size q : option string) (w w' : world)
    (out : list PetOut.t) :
  list_pets regex species size q w = (inr out, w') ->
  exists selected,
    Forall2 (fun d v => PetOut.from_mongo d = inr v) selected out
    /\ incl selected (stored_pets w)
    /\ forall d c, In d selected -> In c (filter_of species size q) ->
         exists tc, compile_clause regex c = Some tc
                    /\ tc (Pet.lookup (body d)) = true.
Proof.
  intros H. destruct (list_pets_inr _ _ _ _ _ _ _ H) as [test [Hc Hcol]].
  exists (List.filter (fun d => test (Pet.lookup (body d))) (stored_pets w)).
  split; [apply collect_Forall2, Hcol|].
  split; [apply incl_filter|].
  intros d c Hd Hin. apply filter_In in Hd. destruct Hd as [_ Hd].
  destruct (compile_In _ _ _ _ Hc Hin) as [tc [Htc Himp]].
  exists tc; auto.
Qed.

Lemma selected_not_adopted regex (d : document Pet.t) tc :
  compile_clause regex (Field "is_adopted" (Eq (VBool false))) = Some tc ->
  tc (Pet.lookup (body d)) = true ->
  Pet.is_adopted (body d) = Val false.
Proof.
  intros Hc Ht. destruct (field_eq_holds _ _ _ _ _ Hc Ht) as [v' [Hv He]].
  apply value_eqb_bool in He. subst v'.
  cbn in Hv. destruct (Pet.is_adopted (body d)); simpl in Hv; congruence.
Qed.

(** C1. Whatever the filters, a successful [list_pets] returns only views
    of stored pets whose [is_adopted] is false: the views are those of a
    selection of the stored pets, every selected pet has
    [is_adopted = false], so no stored pet with [is_adopted = true] is
    among them, every view says [is_adopted = false], and the view of a
    pet with [is_adopted = true] is not in the result. *)
Theorem list_pets_excludes_adopted regex (species size q : option string)
    (w w' : world) (out : list PetOut.t) :
  list_pets regex species size q w = (inr out, w') ->
  exists selected,
    Forall2 (fun d v => PetOut.from_mongo d = inr v) selected out
    /\ incl selected (stored_pets w)
    /\ (forall d, In d selected -> Pet.is_adopted (body d) = Val false)
    /\ (forall d, In d (stored_pets w) ->
                  Pet.is_adopted (body d) = Val true -> ~ In d selected)
    /\ (forall v, In v out -> PetOut.is_adopted v = false)
    /\ (forall d v, Pet.is_adopted (body d) = Val true ->
                    PetOut.from_mongo d = inr v -> ~ In v out).
Proof.
  intros H.
  destruct (list_pets_origin _ _ _ _ _ _ _ H) as [selected [HF [Hincl Hsel]]].
  assert (Hna : forall d, In d selected -> Pet.is_adopted (body d) = Val false).
  { intros d Hd.
    destruct (Hsel d _ Hd (filter_of_is_adopted species size q))
      as [tc [Hc Ht]].
    eapply selected_not_adopted; eauto. }
  assert (Hview : forall v, In v out -> PetOut.is_adopted v = false).
  { intros v Hv.
    destruct (Forall2_In_r _ _ _ _ HF Hv) as [d [Hd Hdv]].
    apply from_mongo_inr in Hdv.
    destruct Hdv as (_ & _ & _ & _ & _ & _ & _ & _ & _ & Had).
    rewrite (Hna d Hd) in Had. simpl in Had. congruence. }
  exists selected.
  split; [exact HF|]. split; [exact Hincl|]. split; [exact Hna|].
  split; [|split; [exact Hview|]].
  - intros d _ Had Hd. rewrite (Hna d Hd) in Had. discriminate.
  - intros d v Had Hdv Hv.
    apply from_mongo_inr in Hdv.
    destruct Hdv as (_ & _ & _ & _ & _ & _ & _ & _ & _ & Hd).
    rewrite Had in Hd. simpl in Hd.
    rewrite (Hview v Hv) in Hd. discriminate.
Qed.

Lemma list_pets_excludes_adopted_witness :
  exists out w',
    list_pets Wildcard.regex (Some "Dog") None None world_with_adopted
    = (inr out, w')
    /\ exists selected,
         Forall2 (fun d v => PetOut.from_mongo d = inr v) selected out
         /\ incl selected (stored_pets world_with_adopted)
         /\ (forall d, In d selected -> Pet.is_adopted (body d) = Val false)
         /\ (forall d, In d (stored_pets world_with_adopted) ->
                       Pet.is_adopted (body d) = Val true -> ~ In d selected)
         /\ (forall v, In v out -> PetOut.is_adopted v = false)
         /\ (forall d v, Pet.is_adopted (body d) = Val true ->
                         PetOut.from_mongo d = inr v -> ~ In v out).
Proof.
  eexists. eexists. split.
  - vm_compute. reflexivity.
  - eapply (list_pets_excludes_adopted Wildcard.regex (Some "Dog") None None
              world_with_adopted).
    vm_compute. reflexivity.
Defined.

(** C2, as amended. Every view that [list_pets] returns satisfies every
    filter that was given and is not empty: [species] and [size] equal the
    view's fields, and the query, compiled as a pattern with the option
    that ignores case, matches somewhere in the name, the description or
    the location. *)
Theorem list_pets_satisfies_filters regex (species size q : option string)
    (w w' : world) (out : list PetOut.t) :
  list_pets regex species size q w = (inr out, w') ->
  forall v, In v out ->
    (forall s, species = Some s -> s <> "" -> PetOut.species v = s)
    /\ (forall s, size = Some s -> s <> "" -> PetOut.size v = s)
    /\ (forall p, q = Some p -> p <> "" ->
          exists search,
            regex p "i" = Some search
            /\ (search (PetOut.name v) = true
                \/ option_any search (PetOut.description v) = true
                \/ option_any search (PetOut.location v) = true)).
Proof.
  intros H v Hv.
  destruct (list_pets_origin _ _ _ _ _ _ _ H) as [selected [HF [_ Hsel]]].
  destruct (Forall2_In_r _ _ _ _ HF Hv) as [d [Hd Hdv]].
  apply from_mongo_inr in Hdv.
  destruct Hdv as (_ & Hname & Hsp & _ & _ & Hsz & Hdesc & _ & Hloc & _).
  split; [|split].
  - intros s Es Hs.
    destruct (Hsel d _ Hd (filter_of_species species size q s Es Hs))
      as [tc [Hc Ht]].
    destruct (field_eq_holds _ _ _ _ _ Hc Ht) as [v' [Hv' He]].
    apply value_eqb_str in He. subst v'.
    cbn in Hv'. rewrite Hsp in Hv'. simpl in Hv'. congruence.
  - intros s Es Hs.
    destruct (Hsel d _ Hd (filter_of_size species size q s Es Hs))
      as [tc [Hc Ht]].
    destruct (field_eq_holds _ _ _ _ _ Hc Ht) as [v' [Hv' He]].
    apply value_eqb_str in He. subst v'.
    cbn in Hv'. rewrite Hsz in Hv'. simpl in Hv'. congruence.
  - intros p Ep Hp.
    destruct (Hsel d _ Hd (filter_of_query species size q p Ep Hp))
      as [tc [Hc Ht]].
    destruct (or_regex_holds _ _ _ Hc) as [search [Hre Hor]].
    exists search. split; [exact Hre|].
    destruct (Hor _ Ht) as [[t [Hf Hs]]|[[t [Hf Hs]]|[t [Hf Hs]]]]; cbn in Hf.
    + left. rewrite Hname in Hf. simpl in Hf. congruence.
    + right; left. rewrite Hdesc.
      destruct (Pet.description (body d)); simpl in *; congruence.
    + right; right. rewrite Hloc.
      destruct (Pet.location (body d)); simpl in *; congruence.
Qed.

Lemma list_pets_satisfies_filters_witness :
  exists out w' v,
    list_pets Wildcard.regex (Some "Cat") (Some "Small") (Some "calm")
      seeded_world = (inr out, w')
    /\ In v out
    /\ (forall s, Some "Cat" = Some s -> s <> "" -> PetOut.species v = s)
    /\ (forall s, Some "Small" = Some s -> s <> "" -> PetOut.size v = s)
    /\ (forall p, Some "calm" = Some p -> p <> "" ->
          exists search,
            Wildcard.regex p "i" = Some search
            /\ (search (PetOut.name v) = true
                \/ option_any search (PetOut.description v) = true
                \/ option_any search (PetOut.location v) = true)).
Proof.
  eexists. eexists. eexists. split; [vm_compute; reflexivity|].
  split; [left; reflexivity|].
  eapply (list_pets_satisfies_filters Wildcard.regex (Some "Cat")
            (Some "Small") (Some "calm") seeded_world).
  - vm_compute. reflexivity.
  - left. reflexivity.
Defined.

(** C2, as the specification words it, fails: the query is a pattern, not
    a text to be found.  On the seeded store the query [mo.ha] returns
    Mocha, whose name, description and location do not contain the five
    characters [mo.ha] in any case. *)
Lemma query_is_not_a_substring :
  exists out w' v,
    list_pets Wildcard.regex None None (Some "mo.ha") seeded_world
    = (inr out, w')
    /\ In v out
    /\ PetOut.name v = "Mocha"
    /\ satisfies_filters_as_specified None None (Some "mo.ha") v = false.
Proof.
  eexists. eexists. eexists. split; [vm_compute; reflexivity|].
  split; [left; reflexivity|].
  split; vm_compute; reflexivity.
Qed.

(** C9. A parameter given as the empty string is a parameter not given:
    [list_pets] is the same computation. *)
Theorem list_pets_empty_string_is_absent regex (species size q : option string) :
  list_pets regex (Some "") size q = list_pets regex None size q
  /\ list_pets regex species (Some "") q = list_pets regex species None q
  /\ list_pets regex species size (Some "") = list_pets regex species size None.
Proof. repeat split; reflexivity. Qed.

(** With [species = ""] the seeded pets are all returned, although none
    has an empty species. *)
Example list_pets_empty_species_returns_all :
  exists out w',
    list_pets Wildcard.regex (Some "") None None seeded_world = (inr out, w')
    /\ map PetOut.name out = ["Mocha"; "Miso"; "Taro"].
Proof. eexists. eexists. split; vm_compute; reflexivity. Qed.

(** ** Looking a pet up by its identifier *)

Lemma first_with_id_none {B} (oid : ObjectId.t) (l : list (document B)) :
  (forall d, In d l -> _id d <> oid) -> first_with_id oid l = None.
Proof.
  induction l as [|d l IH]; intros H; simpl; [reflexivity|].
  destruct (N.eqb_spec (_id d) oid) as [E|E].
  - exfalso. apply (H d); simpl; auto.
  - apply IH. intros d' Hd'. apply H. simpl; auto.
Qed.

Lemma first_with_id_some {B} (oid : ObjectId.t) (l : list (document B)) d :
  In d l -> _id d = oid ->
  exists p, first_with_id oid l = Some p /\ In p l /\ _id p = oid.
Proof.
  induction l as [|d' l IH]; intros Hin Hid; simpl in *; [contradiction|].
  destruct (N.eqb_spec (_id d') oid) as [E|E].
  - exists d'; auto.
  - destruct Hin as [->|Hin]; [contradiction|].
    destruct (IH Hin Hid) as [p [Hp [Hl Hi]]]. exists p; auto.
Qed.

(** ** The adoption request intake, case by case *)

Lemma create_adoption_request_missing (req : Adoptionrequest.t)
    (name : string) (s : store) env sent0 (oid : ObjectId.t) :
  ObjectId.parse (Adoptionrequest.pet_id req) = Some oid ->
  first_with_id oid (pet s) = None ->
  create_adoption_request req
    (World (Some (Database.mk name (Up s))) env sent0)
  = (inl (HTTPException 404 "Pet not found"),
     World (Some (Database.mk name (Up s))) env
           (sent0 ++ [FindOne "pet" oid])).
Proof.
  intros Hp Hf.
  unfold create_adoption_request, bind, the_db. simpl. rewrite Hp.
  unfold find_one, round_trip. simpl. rewrite Hf. reflexivity.
Qed.

Lemma create_adoption_request_found (req : Adoptionrequest.t)
    (name : string) (s : store) env sent0 (oid : ObjectId.t) p :
  ObjectId.parse (Adoptionrequest.pet_id req) = Some oid ->
  first_with_id oid (pet s) = Some p ->
  create_adoption_request req
    (World (Some (Database.mk name (Up s))) env sent0)
  = (inr (AdoptionReceipt.mk "Request received" (ObjectId.str (next_oid s))),
     World (Some (Database.mk name
                    (Up (Store (pet s)
                               (adoptionrequest s
                                ++ [Document (next_oid s) req])
                               (other_collections s)
                               (N.succ (next_oid s))))))
           env
           ((sent0 ++ [FindOne "pet" oid]) ++ [InsertOne "adoptionrequest"])).
Proof.
  intros Hp Hf.
  unfold create_adoption_request, bind, the_db. simpl. rewrite Hp.
  unfold find_one, round_trip. simpl. rewrite Hf. reflexivity.
Qed.

(** ** The identifiers of a well-formed store *)

Lemma empty_store_wf : store_wf empty_store.
Proof.
  unfold store_wf, empty_store, ObjectId.bound; simpl.
  repeat split; try contradiction.
Qed.

(** Inserting keeps the store well formed, as long as the counter stays
    within the twelve bytes. *)
Lemma insert_request_wf (s : store) (r : Adoptionrequest.t) :
  store_wf s -> (N.succ (next_oid s) < ObjectId.bound)%N ->
  store_wf (Store (pet s) (adoptionrequest s ++ [Document (next_oid s) r])
                  (other_collections s) (N.succ (next_oid s))).
Proof.
  intros (Hp & Hr & _) Hb. unfold store_wf; simpl. repeat split; auto.
  - intros d Hd. specialize (Hp d Hd). lia.
  - intros d Hd. apply in_app_or in Hd. destruct Hd as [Hd|[<-|[]]]; simpl.
    + specialize (Hr d Hd). lia.
    + lia.
Qed.

Lemma str_injective (a b : ObjectId.t) :
  (a < ObjectId.bound)%N -> (b < ObjectId.bound)%N ->
  ObjectId.str a = ObjectId.str b -> a = b.
Proof.
  intros Ha Hb E.
  pose proof (ObjectIdFacts.parse_str a Ha) as Pa.
  pose proof (ObjectIdFacts.parse_str b Hb) as Pb.
  rewrite E in Pa. congruence.
Qed.

Lemma body_number_from {B} (n : N) (l : list B) :
  map body (number_from n l) = l.
Proof. revert n; induction l as [|b l IH]; intros n; simpl; congruence. Qed.

(** Seeding an empty pet collection. *)
Lemma seed_pets_on_empty (name : string) (s : store) env sent0 :
  pet s = [] ->
  seed_pets (World (Some (Database.mk name (Up s))) env sent0)
  = (inr (SeedReport.mk "Seeded" (Z.of_nat (length sample_pets))),
     World (Some (Database.mk name
                    (Up (Store (number_from (next_oid s) sample_pets)
                               (adoptionrequest s) (other_collections s)
                               (N.succ (N.succ (N.succ (next_oid s))))))))
           env
           (sent0 ++ [CountDocuments "pet"; InsertOne "pet"; InsertOne "pet";
                      InsertOne "pet"])).
Proof.
  destruct s as [p a o n]. simpl. intros ->.
  cbv -[app ObjectId.str N.succ].
  rewrite <- !app_assoc. reflexivity.
Qed.

(** Seeding a pet collection that holds something. *)
Lemma seed_pets_on_nonempty (name : string) (s : store) env sent0 :
  pet s <> [] ->
  seed_pets (World (Some (Database.mk name (Up s))) env sent0)
  = (inr (SeedReport.mk "Already seeded" (Z.of_nat (length (pet s)))),
     World (Some (Database.mk name (Up s))) env
           (sent0 ++ [CountDocuments "pet"])).
Proof.
  intros Hne.
  unfold seed_pets, bind, the_db, count_documents, round_trip. simpl.
  destruct (pet s) as [|d l] eqn:E; [contradiction|].
  destruct s as [p a o n]. simpl in *. subst p.
  reflexivity.
Qed.

(** Both writing endpoints keep the store well formed. *)
Lemma seed_pets_keeps_wf (name : string) (s : store) env sent0 :
  pet s = [] -> store_wf s ->
  (N.succ (N.succ (N.succ (next_oid s))) < ObjectId.bound)%N ->
  exists report s',
    seed_pets (World (Some (Database.mk name (Up s))) env sent0)
    = (inr report,
       World (Some (Database.mk name (Up s'))) env
             (sent0 ++ [CountDocuments "pet"; InsertOne "pet";
                        InsertOne "pet"; InsertOne "pet"]))
    /\ store_wf s'.
Proof.
  intros Hempty (_ & Hr & _) Hb.
  eexists. eexists. split; [apply seed_pets_on_empty, Hempty|].
  unfold store_wf; simpl. repeat split; auto.
  - intros d [<-|[<-|[<-|[]]]]; simpl; lia.
  - intros d Hd. specialize (Hr d Hd). lia.
Qed.

Lemma create_adoption_request_keeps_wf (req : Adoptionrequest.t)
    (name : string) (s : store) env sent0 (oid : ObjectId.t) p :
  ObjectId.parse (Adoptionrequest.pet_id req) = Some oid ->
  first_with_id oid (pet s) = Some p ->
  store_wf s -> (N.succ (next_oid s) < ObjectId.bound)%N ->
  exists receipt s',
    create_adoption_request req
      (World (Some (Database.mk name (Up s))) env sent0)
    = (inr receipt,
       World (Some (Database.mk name (Up s'))) env
             ((sent0 ++ [FindOne "pet" oid])
              ++ [InsertOne "adoptionrequest"]))
    /\ store_wf s'.
Proof.
  intros Hp Hf Hwf Hb.
  eexists. eexists.
  split; [apply (create_adoption_request_found req name s env sent0 oid p Hp Hf)|].
  apply insert_request_wf; assumption.
Qed.

(** C3. Seeding twice in a row, from an empty pet collection behind a
    configured handle whose server answers: the first call inserts the fixture pets and reports
    their number, three; the second reports "Already seeded" with the same
    number, sends only the count to the server and leaves the store as it
    was. *)
Theorem seed_pets_twice (name : string) (s : store) env sent0 :
  pet s = [] ->
  exists w1 w2,
    seed_pets (World (Some (Database.mk name (Up s))) env sent0)
    = (inr (SeedReport.mk "Seeded" (Z.of_nat (length sample_pets))), w1)
    /\ map body (stored_pets w1) = sample_pets
    /\ Z.of_nat (length sample_pets) = 3%Z
    /\ seed_pets w1
       = (inr (SeedReport.mk "Already seeded" (Z.of_nat (length sample_pets))),
          w2)
    /\ db w2 = db w1
    /\ sent w2 = sent w1 ++ [CountDocuments "pet"].
Proof.
  intros Hempty.
  eexists. eexists.
  split; [apply seed_pets_on_empty, Hempty|].
  split; [apply body_number_from|].
  split; [reflexivity|].
  split.
  - rewrite seed_pets_on_nonempty by discriminate. reflexivity.
  - split; reflexivity.
Qed.

Lemma seed_pets_twice_witness :
  pet empty_store = []
  /\ exists w1 w2,
       seed_pets fresh_world
       = (inr (SeedReport.mk "Seeded" (Z.of_nat (length sample_pets))), w1)
       /\ map body (stored_pets w1) = sample_pets
       /\ Z.of_nat (length sample_pets) = 3%Z
       /\ seed_pets w1
          = (inr (SeedReport.mk "Already seeded"
                    (Z.of_nat (length sample_pets))), w2)
       /\ db w2 = db w1
       /\ sent w2 = sent w1 ++ [CountDocuments "pet"].
Proof.
  split; [reflexivity|].
  exact (seed_pets_twice "paws" empty_store no_environ [] eq_refl).
Defined.



(** A [pet_id] of 24 characters with whitespace among them is accepted by
    [ObjectId] and looked up; in a store whose identifiers come from its
    counter nothing is stored under what it reads, and the answer is
    404. *)
Lemma whitespace_pet_id_is_looked_up (req : Adoptionrequest.t)
    (name : string) (s : store) env sent0 (oid : ObjectId.t) :
  ObjectId.parse (Adoptionrequest.pet_id req) = Some oid ->
  (ObjectId.bound <= oid)%N ->
  store_wf s ->
  create_adoption_request req
    (World (Some (Database.mk name (Up s))) env sent0)
  = (inl (HTTPException 404 "Pet not found"),
     World (Some (Database.mk name (Up s))) env
           (sent0 ++ [FindOne "pet" oid])).
Proof.
  intros Hp Hb (Hpets & _ & Hn).
  apply create_adoption_request_missing; [exact Hp|].
  apply first_with_id_none. intros d Hd E.
  specialize (Hpets d Hd). lia.
Qed.

Example blank_pet_id :
  ObjectId.parse "                        " = Some (ObjectId.bound + 1)%N
  /\ create_adoption_request
       (Adoptionrequest.mk "                        " []) seeded_world
     = (inl (HTTPException 404 "Pet not found"),
        World (db seeded_world) no_environ
              (sent seeded_world ++ [FindOne "pet" (ObjectId.bound + 1)%N])).
Proof. split; vm_compute; reflexivity. Qed.

Example spaced_pet_id :
  ObjectId.parse "  0000000000000000000000"
  = Some (ObjectId.bound + 256 ^ 11)%N
  /\ ObjectId.parse "00 00 00 00 00 00 00 00 " <> None
  /\ ObjectId.parse "0 0000000000000000000000" = None
  /\ fst (create_adoption_request
            (Adoptionrequest.mk "  0000000000000000000000" []) seeded_world)
     = inl (HTTPException 404 "Pet not found").
Proof.
  split; [vm_compute; reflexivity|].
  split; [vm_compute; discriminate|].
  split; vm_compute; reflexivity.
Qed.

(** C5. With the handle configured, the server answering, and a [pet_id]
    that [ObjectId] accepts: when no stored pet has that identifier the
    answer is 404, one lookup was sent and the store is as before; and
    when a stored pet has it and has [is_adopted = true], the request is
    filed all the same, since the lookup is by identifier alone: after the
    lookup one insert is sent, the payload is stored at the end of the
    adoption requests under the next identifier, the pets are as before,
    and the receipt carries the 24 digits of that identifier. *)
Theorem unknown_pet_is_not_found (req : Adoptionrequest.t) (name : string)
    (s : store) env sent0 (oid : ObjectId.t) :
  ObjectId.parse (Adoptionrequest.pet_id req) = Some oid ->
  ((forall d, In d (pet s) -> _id d <> oid) ->
   create_adoption_request req
     (World (Some (Database.mk name (Up s))) env sent0)
   = (inl (HTTPException 404 "Pet not found"),
      World (Some (Database.mk name (Up s))) env
            (sent0 ++ [FindOne "pet" oid])))
  /\ (forall d, In d (pet s) -> _id d = oid ->
                Pet.is_adopted (body d) = Val true ->
      create_adoption_request req
        (World (Some (Database.mk name (Up s))) env sent0)
      = (inr (AdoptionReceipt.mk "Request received"
                (ObjectId.str (next_oid s))),
         World (Some (Database.mk name
                        (Up (Store (pet s)
                                   (adoptionrequest s
                                    ++ [Document (next_oid s) req])
                                   (other_collections s)
                                   (N.succ (next_oid s))))))
               env
               ((sent0 ++ [FindOne "pet" oid])
                ++ [InsertOne "adoptionrequest"]))
      /\ String.length (ObjectId.str (next_oid s)) = 24).
Proof.
  intros Hp. split.
  - intros Hno. apply create_adoption_request_missing; [exact Hp|].
    apply first_with_id_none, Hno.
  - intros d Hd Hid _.
    destruct (first_with_id_some oid (pet s) d Hd Hid) as [p [Hf _]].
    split.
    + apply (create_adoption_request_found req name s env sent0 oid p Hp Hf).
    + apply ObjectIdFacts.str_length.
Qed.

Lemma unknown_pet_is_not_found_witness :
  (ObjectId.parse "00000000000000000000000a" = Some 10%N
   /\ (forall d, In d (stored_pets seeded_world) -> _id d <> 10%N)
   /\ create_adoption_request
        (Adoptionrequest.mk "00000000000000000000000a" []) seeded_world
      = (inl (HTTPException 404 "Pet not found"),
         World (db seeded_world) no_environ
               (sent seeded_world ++ [FindOne "pet" 10%N])))
  /\ (ObjectId.parse "000000000000000000000003" = Some 3%N
      /\ In (Document 3%N rex) (stored_pets world_with_adopted)
      /\ Pet.is_adopted rex = Val true
      /\ create_adoption_request
           (Adoptionrequest.mk "000000000000000000000003" [])
           world_with_adopted
         = (inr (AdoptionReceipt.mk "Request received" (ObjectId.str 4%N)),
            World (Some (Database.mk "paws"
                     (Up (Store (stored_pets world_with_adopted)
                                ([] ++ [Document 4%N
                                          (Adoptionrequest.mk
                                             "000000000000000000000003" [])])
                                [] (N.succ 4)))))
                  no_environ
                  (([] ++ [FindOne "pet" 3%N])
                   ++ [InsertOne "adoptionrequest"]))
      /\ String.length (ObjectId.str 4%N) = 24).
Proof.
  assert (Hno : forall d, In d (stored_pets seeded_world) -> _id d <> 10%N).
  { intros d Hd. vm_compute in Hd.
    destruct Hd as [<-|[<-|[<-|[]]]]; discriminate. }
  assert (Hin : In (Document 3%N rex) (stored_pets world_with_adopted)).
  { vm_compute. do 3 right. left. reflexivity. }
  split.
  - split; [reflexivity|]. split; [exact Hno|].
    exact (proj1 (unknown_pet_is_not_found
                    (Adoptionrequest.mk "00000000000000000000000a" [])
                    "paws" _ no_environ _ 10%N eq_refl) Hno).
  - split; [reflexivity|]. split; [exact Hin|]. split; [reflexivity|].
    exact (proj2 (unknown_pet_is_not_found
                    (Adoptionrequest.mk "000000000000000000000003" [])
                    "paws"
                    (Store (stored_pets world_with_adopted) [] [] 4)
                    no_environ [] 3%N eq_refl)
                 (Document 3%N rex) Hin eq_refl eq_refl).
Defined.

(** C6. With the handle configured, the server answering, and a [pet_id]
    that is the identifier of a stored pet, in a store whose identifiers
    come from its counter:
    the request succeeds, after one lookup and one insert; the pets are as
    before and the adoption requests have exactly one more document, the
    payload under a new identifier; the returned [request_id] is the text of
    that identifier, is not empty, and differs from the pet's identifier
    and from the [pet_id] sent. *)
Theorem existing_pet_request_is_stored (req : Adoptionrequest.t)
    (name : string) (s : store) env sent0 (oid : ObjectId.t)
    (d : document Pet.t) :
  ObjectId.parse (Adoptionrequest.pet_id req) = Some oid ->
  In d (pet s) -> _id d = oid -> store_wf s ->
  exists receipt s',
    create_adoption_request req
      (World (Some (Database.mk name (Up s))) env sent0)
    = (inr receipt,
       World (Some (Database.mk name (Up s'))) env
             ((sent0 ++ [FindOne "pet" oid])
              ++ [InsertOne "adoptionrequest"]))
    /\ pet s' = pet s
    /\ adoptionrequest s'
       = adoptionrequest s ++ [Document (next_oid s) req]
    /\ AdoptionReceipt.request_id receipt = ObjectId.str (next_oid s)
    /\ AdoptionReceipt.request_id receipt <> ""
    /\ AdoptionReceipt.request_id receipt <> ObjectId.str (_id d)
    /\ AdoptionReceipt.request_id receipt <> Adoptionrequest.pet_id req.
Proof.
  intros Hp Hd Hid (Hpets & _ & Hb).
  destruct (first_with_id_some oid (pet s) d Hd Hid) as [p [Hf _]].
  eexists. eexists.
  split; [apply (create_adoption_request_found req name s env sent0 oid p Hp Hf)|].
  simpl. repeat split.
  - intros E. pose proof (ObjectIdFacts.str_length (next_oid s)) as L.
    rewrite E in L. discriminate.
  - intros E. apply str_injective in E; auto.
    + specialize (Hpets d Hd). lia.
    + specialize (Hpets d Hd). lia.
  - intros E. pose proof (ObjectIdFacts.parse_str (next_oid s) Hb) as P.
    rewrite E, Hp in P. inversion P; subst.
    specialize (Hpets d Hd). lia.
Qed.

Lemma seeded_store_wf :
  store_wf (Store (stored_pets seeded_world) [] [] 3).
Proof.
  unfold store_wf, ObjectId.bound. simpl. repeat split; try contradiction.
  intros d [<-|[<-|[<-|[]]]]; reflexivity.
Qed.

Lemma existing_pet_request_is_stored_witness :
  ObjectId.parse "000000000000000000000000" = Some 0%N
  /\ store_wf (Store (stored_pets seeded_world) [] [] 3)
  /\ exists d receipt s',
       In d (stored_pets seeded_world) /\ _id d = 0%N
       /\ create_adoption_request
            (Adoptionrequest.mk "000000000000000000000000" []) seeded_world
          = (inr receipt,
             World (Some (Database.mk "paws" (Up s'))) no_environ
                   ((sent seeded_world ++ [FindOne "pet" 0%N])
                    ++ [InsertOne "adoptionrequest"]))
       /\ pet s' = stored_pets seeded_world
       /\ adoptionrequest s'
          = [] ++ [Document 3%N
                     (Adoptionrequest.mk "000000000000000000000000" [])]
       /\ AdoptionReceipt.request_id receipt = ObjectId.str 3%N
       /\ AdoptionReceipt.request_id receipt <> ""
       /\ AdoptionReceipt.request_id receipt <> ObjectId.str (_id d)
       /\ AdoptionReceipt.request_id receipt <> "000000000000000000000000".
Proof.
  split; [reflexivity|]. split; [exact seeded_store_wf|].
  exists (Document 0%N (nth 0 sample_pets rex)).
  assert (Hin : In (Document 0%N (nth 0 sample_pets rex))
                   (stored_pets seeded_world)) by (left; reflexivity).
  destruct (existing_pet_request_is_stored
              (Adoptionrequest.mk "000000000000000000000000" [])
              "paws" (Store (stored_pets seeded_world) [] [] 3)
              no_environ (sent seeded_world) 0%N
              (Document 0%N (nth 0 sample_pets rex))
              eq_refl Hin eq_refl seeded_store_wf)
    as [receipt [s' H]].
  exists receipt, s'. split; [exact Hin|]. split; [reflexivity|]. exact H.
Defined.

(** C10. Without a configured handle every payload is answered with 500,
    whether its [pet_id] is one that [ObjectId] accepts or not: the handle
    is checked before the identifier is read, and nothing else happens. *)
Theorem unconfigured_store_is_500 (req : Adoptionrequest.t) env sent0 :
  create_adoption_request req (World None env sent0)
  = (inl (HTTPException 500 "Database not configured"), World None env sent0).
Proof. reflexivity. Qed.

Example unconfigured_store_invalid_id :
  ObjectId.parse "not-an-id" = None
  /\ fst (create_adoption_request (Adoptionrequest.mk "not-an-id" [])
            (World None no_environ []))
     = inl (HTTPException 500 "Database not configured").
Proof. split; reflexivity. Qed.

(** C7. In every world [test_database] returns a report and raises
    nothing; when the request for the collection names fails, the report's
    [database] entry is the fixed label followed by the first 50 characters
    of the error's text, so the failure is reported in at most 50
    characters. *)
Theorem test_database_never_raises (w : world) :
  exists report w',
    test_database w = (inr report, w')
    /\ forall name reason,
         db w = Some (Database.mk name (Down reason)) ->
         StatusReport.database report
         = (connected_but_error ++ Text.take 50 reason)%string
         /\ String.length (Text.take 50 reason) <= 50.
Proof.
  destruct w as [[[name [s|reason]]|] env sent0];
    eexists; eexists; (split; [reflexivity|]);
    simpl; intros name' reason' H; inversion H; subst.
  split; [reflexivity|apply take_length].
Qed.

Lemma test_database_never_raises_witness :
  exists report w',
    test_database
      (World (Some (Database.mk "paws"
                      (Down "ServerSelectionTimeoutError: localhost:27017: [Errno 111] Connection refused")))
             no_environ [])
    = (inr report, w')
    /\ StatusReport.database report
       = (connected_but_error
          ++ "ServerSelectionTimeoutError: localhost:27017: [Err")%string
    /\ String.length
         (Text.take 50 "ServerSelectionTimeoutError: localhost:27017: [Errno 111] Connection refused")
       <= 50.
Proof.
  destruct (test_database_never_raises
              (World (Some (Database.mk "paws"
                              (Down "ServerSelectionTimeoutError: localhost:27017: [Errno 111] Connection refused")))
                     no_environ []))
    as [report [w' [Hrun Hdown]]].
  exists report, w'. split; [exact Hrun|].
  exact (Hdown _ _ eq_refl).
Defined.

(** C8, as the specification words it, fails: a document without a name
    is refused when the view is built. *)
Lemma mapping_is_not_pass_through : ~ mapping_is_pass_through.
Proof.
  intros H. destruct (H nameless eq_refl) as [v Hv].
  vm_compute in Hv. discriminate.
Qed.

Example from_mongo_nameless :
  PetOut.from_mongo nameless = inl (ValidationError ["name"]).
Proof. reflexivity. Qed.

(** The store returns such a document to [list_pets], which then fails as
    a whole. *)
Example list_pets_nameless :
  fst (list_pets Wildcard.regex None None None
         (World (Some (Database.mk "paws" (Up (Store [nameless] [] [] 8))))
                no_environ []))
  = inl (ValidationError ["name"]).
Proof. reflexivity. Qed.

(** C8, as amended. [from_mongo] reads every key with [None] for a missing
    one ([False] for [is_adopted]) and hands the values to [PetOut], which
    checks them against the declared field types: a document in which
    [name], [species], [age_years], [gender] or [size] is missing or null,
    or [is_adopted] is null, is refused with a validation error, and a
    document that holds a string under [name], [species], [gender] and
    [size] and a number within the doubles under [age_years] is accepted
    whatever else is missing.  The view of an accepted document carries
    its strings unchanged and its age as a float; a missing or null
    [description],
    [photo_url] or [location] becomes [None], and a missing [is_adopted]
    becomes [False]. *)
Theorem from_mongo_checks_required_fields (doc : document Pet.t) :
  ((absent (Pet.name (body doc)) \/ absent (Pet.species (body doc))
    \/ absent (Pet.age_years (body doc)) \/ absent (Pet.gender (body doc))
    \/ absent (Pet.size (body doc))
    \/ Pet.is_adopted (body doc) = Null) ->
   exists missing, PetOut.from_mongo doc = inl (ValidationError missing))
  /\ (forall n sp a f g sz,
        Pet.name (body doc) = Val n -> Pet.species (body doc) = Val sp ->
        Pet.age_years (body doc) = Val a -> to_float a = Some f ->
        Pet.gender (body doc) = Val g ->
        Pet.size (body doc) = Val sz -> Pet.is_adopted (body doc) <> Null ->
        exists v, PetOut.from_mongo doc = inr v)
  /\ forall v, PetOut.from_mongo doc = inr v ->
       PetOut.id v = ObjectId.str (_id doc)
       /\ Pet.name (body doc) = Val (PetOut.name v)
       /\ Pet.species (body doc) = Val (PetOut.species v)
       /\ (exists a, Pet.age_years (body doc) = Val a
                     /\ to_float a = Some (PetOut.age_years v))
       /\ Pet.gender (body doc) = Val (PetOut.gender v)
       /\ Pet.size (body doc) = Val (PetOut.size v)
       /\ (absent (Pet.description (body doc)) -> PetOut.description v = None)
       /\ (absent (Pet.photo_url (body doc)) -> PetOut.photo_url v = None)
       /\ (absent (Pet.location (body doc)) -> PetOut.location v = None)
       /\ (Pet.is_adopted (body doc) = Missing -> PetOut.is_adopted v = false).
Proof.
  split; [|split].
  - unfold PetOut.from_mongo, PetOut.init, absent. cbv zeta.
    destruct (Pet.name (body doc)); simpl; try (eexists; reflexivity).
    destruct (Pet.species (body doc)); simpl; try (eexists; reflexivity).
    destruct (Pet.age_years (body doc)) as [| |age]; simpl;
      try (eexists; reflexivity).
    destruct (to_float age) as [f|]; try (eexists; reflexivity).
    destruct (Pet.gender (body doc)); simpl; try (eexists; reflexivity).
    destruct (Pet.size (body doc)); simpl; try (eexists; reflexivity).
    destruct (Pet.is_adopted (body doc)); simpl; try (eexists; reflexivity);
      intros H; exfalso; intuition discriminate.
  - intros n sp a f g sz Hn Hsp Ha Hf Hg Hsz Had.
    unfold PetOut.from_mongo, PetOut.init. cbv zeta.
    rewrite Hn, Hsp, Ha, Hg, Hsz. simpl. rewrite Hf.
    destruct (Pet.is_adopted (body doc)); simpl; eauto. contradiction.
  - intros v H. apply from_mongo_inr in H.
    destruct H as (Hid & Hn & Hs & Ha & Hg & Hz & Hd & Hp & Hl & Had).
    repeat (split; [assumption|]).
    unfold absent.
    split; [intros [E|E]; rewrite Hd, E; reflexivity|].
    split; [intros [E|E]; rewrite Hp, E; reflexivity|].
    split; [intros [E|E]; rewrite Hl, E; reflexivity|].
    intros E. rewrite E in Had. simpl in Had. congruence.
Qed.

Lemma from_mongo_checks_required_fields_witness :
  absent (Pet.name (body nameless))
  /\ (exists missing,
        PetOut.from_mongo nameless = inl (ValidationError missing))
  /\ exists v,
       PetOut.from_mongo bare = inr v
       /\ absent (Pet.description (body bare))
       /\ Pet.is_adopted (body bare) = Missing
       /\ PetOut.description v = None
       /\ PetOut.is_adopted v = false.
Proof.
  split; [left; reflexivity|].
  split.
  - apply (proj1 (from_mongo_checks_required_fields nameless)).
    left. left. reflexivity.
  - destruct (proj1 (proj2 (from_mongo_checks_required_fields bare))
                "Bo" "Dog" (Int 2) (inject_Z 2) "Male" "Large"
                eq_refl eq_refl eq_refl eq_refl eq_refl eq_refl)
      as [v Hv]; [discriminate|].
    exists v. split; [exact Hv|].
    split; [left; reflexivity|]. split; [reflexivity|].
    destruct (proj2 (proj2 (from_mongo_checks_required_fields bare)) v Hv)
      as (_ & _ & _ & _ & _ & _ & Hd & _ & _ & Had).
    split; [apply Hd; left; reflexivity|apply Had; reflexivity].
Defined.

(** The float of an integer: itself below [2^53], and the even neighbour
    at the first tie above. *)
Lemma round53_small (z : Z) : (Z.abs z < 2 ^ 53)%Z -> round53 z = z.
Proof.
  intros H. unfold round53. cbv zeta.
  destruct (Z.ltb_spec (Z.abs z) (2 ^ 53)); [reflexivity|lia].
Qed.

Lemma to_float_small (z : Z) :
  (Z.abs z < 2 ^ 53)%Z -> to_float (Int z) = Some (inject_Z z).
Proof.
  intros H. unfold to_float. rewrite (round53_small z H).
  destruct (Z.ltb_spec (Z.abs z) (2 ^ 1024)) as [_|Hge]; [reflexivity|].
  exfalso. assert (2 ^ 53 < 2 ^ 1024)%Z by reflexivity. lia.
Qed.

Example round53_tie :
  round53 (2 ^ 53 + 1) = (2 ^ 53)%Z
  /\ round53 (2 ^ 53 + 3) = (2 ^ 53 + 4)%Z
  /\ round53 (- (2 ^ 53 + 1)) = (- 2 ^ 53)%Z.
Proof. repeat split. Qed.

(** The view of a pet aged [2^53 + 1] says [2^53]; a pet with an age
    beyond the doubles is refused. *)
Example from_mongo_rounds_age :
  (exists v,
     PetOut.from_mongo
       (Document 9%N
          (Pet.mk (Val "Bo") (Val "Dog") (Val (Int (2 ^ 53 + 1))) (Val "Male")
                  (Val "Large") Missing Missing Missing (Val false)))
     = inr v
     /\ PetOut.age_years v = inject_Z (2 ^ 53))
  /\ PetOut.from_mongo
       (Document 9%N
          (Pet.mk (Val "Bo") (Val "Dog") (Val (Int (2 ^ 1024))) (Val "Male")
                  (Val "Large") Missing Missing Missing (Val false)))
     = inl (ValidationError ["age_years"]).
Proof.
  split; [eexists; split; vm_compute; reflexivity|].
  vm_compute. reflexivity.
Qed.

(** ** More on the catalogue *)

(** What [list_pets] does behind a handle whose server answers. *)
Lemma list_pets_run regex (species size q : option string) (name : string)
    (s : store) env sent0 :
  list_pets regex species size q
    (World (Some (Database.mk name (Up s))) env sent0)
  = (match compile regex (filter_of species size q) with
     | Some test =>
         collect PetOut.from_mongo
           (List.filter (fun d => test (Pet.lookup (body d))) (pet s))
     | None => inl (Exception "Regular expression is invalid")
     end,
     World (Some (Database.mk name (Up s))) env
           (sent0 ++ [Find "pet" (filter_of species size q)])).
Proof.
  unfold list_pets, get_documents, find, round_trip, bind, comprehension.
  simpl. destruct (compile regex (filter_of species size q)); reflexivity.
Qed.

Lemma sequence_In_r {A} (l : list (option A)) (r : list A) (a : A) :
  sequence l = Some r -> In a r -> In (Some a) l.
Proof.
  revert r; induction l as [|[x|] l IH]; intros r Hs Hin; simpl in *.
  - inversion Hs; subst. contradiction.
  - destruct (sequence l) as [r'|]; [|discriminate].
    inversion Hs; subst; clear Hs.
    destruct Hin as [<-|Hin]; [left; reflexivity|right; eauto].
  - discriminate.
Qed.

(** A document that passes every entry of a filter passes the filter. *)
Lemma compile_all regex (f : filter) test doc :
  compile regex f = Some test ->
  (forall c tc, In c f -> compile_clause regex c = Some tc -> tc doc = true) ->
  test doc = true.
Proof.
  unfold compile.
  destruct (sequence (map (compile_clause regex) f)) as [tests|] eqn:E;
    [|discriminate].
  intros H Hall. inversion H; subst; clear H.
  apply forallb_forall. intros tc Htc.
  apply (sequence_In_r _ _ _ E) in Htc.
  apply in_map_iff in Htc. destruct Htc as [c [Hc Hin]].
  apply (Hall c tc Hin Hc).
Qed.

(** The entries that [filter_of] can hold. *)
Lemma filter_of_clauses (species size q : option string) (c : clause) :
  In c (filter_of species size q) ->
  c = Field "is_adopted" (Eq (VBool false))
  \/ (exists s, species = Some s /\ s <> "" /\ c = Field "species" (Eq (VStr s)))
  \/ (exists s, size = Some s /\ s <> "" /\ c = Field "size" (Eq (VStr s)))
  \/ (exists p, q = Some p /\ p <> ""
                /\ c = Or [("name", Regex p "i"); ("description", Regex p "i");
                           ("location", Regex p "i")]).
Proof.
  unfold filter_of.
  destruct species as [[|? ?]|], size as [[|? ?]|], q as [[|? ?]|]; simpl;
    intros H;
    repeat match goal with
           | H : _ \/ _ |- _ => destruct H as [H|H]
           | H : False |- _ => contradiction
           end;
    subst c;
    first [ left; reflexivity
          | right; left; eexists; split; [reflexivity|split; [discriminate|reflexivity]]
          | right; right; left; eexists; split; [reflexivity|split; [discriminate|reflexivity]]
          | right; right; right; eexists; split; [reflexivity|split; [discriminate|reflexivity]] ].
Qed.

Lemma sequence_some {A} (l : list (option A)) :
  (forall o, In o l -> exists a, o = Some a) -> exists r, sequence l = Some r.
Proof.
  induction l as [|o l IH]; intros H; simpl; [eauto|].
  destruct (H o (or_introl eq_refl)) as [a ->].
  destruct IH as [r ->]; [intros o' Ho'; apply H; right; exact Ho'|].
  eauto.
Qed.

(** The filter compiles as soon as the query does. *)
Lemma filter_of_compiles regex (species size q : option string) :
  (forall p, q = Some p -> p <> "" -> exists search, regex p "i" = Some search) ->
  exists test, compile regex (filter_of species size q) = Some test.
Proof.
  intros Hq. unfold compile.
  destruct (sequence_some (map (compile_clause regex) (filter_of species size q)))
    as [tests ->]; [|eauto].
  intros o Ho. apply in_map_iff in Ho. destruct Ho as [c [<- Hin]].
  destruct (filter_of_clauses _ _ _ _ Hin)
    as [->|[(s & _ & _ & ->)|[(s & _ & _ & ->)|(p & Ep & Hp & ->)]]];
    try (cbn; eauto; fail).
  destruct (Hq p Ep Hp) as [search Hs].
  unfold compile_clause, compile_entry, compile_cond. simpl.
  rewrite Hs. simpl. eauto.
Qed.

(** A stored pet that is not adopted and meets the given filters passes
    the filter that [list_pets] builds. *)
Lemma matching_pet_passes regex (species size q : option string) test
    (d : document Pet.t) :
  compile regex (filter_of species size q) = Some test ->
  Pet.is_adopted (body d) = Val false ->
  (forall s, species = Some s -> s <> "" -> Pet.species (body d) = Val s) ->
  (forall s, size = Some s -> s <> "" -> Pet.size (body d) = Val s) ->
  (forall p search, q = Some p -> p <> "" -> regex p "i" = Some search ->
     (exists t, Pet.name (body d) = Val t /\ search t = true)
     \/ (exists t, Pet.description (body d) = Val t /\ search t = true)
     \/ (exists t, Pet.location (body d) = Val t /\ search t = true)) ->
  test (Pet.lookup (body d)) = true.
Proof.
  intros Hc Had Hsp Hsz Hq.
  apply (compile_all _ _ _ _ Hc). intros c tc Hin Htc.
  destruct (filter_of_clauses _ _ _ _ Hin)
    as [->|[(s & Es & Hs & ->)|[(s & Es & Hs & ->)|(p & Ep & Hp & ->)]]].
  - cbn in Htc. inversion Htc; subst; clear Htc. cbn. rewrite Had. reflexivity.
  - cbn in Htc. inversion Htc; subst; clear Htc. cbn.
    rewrite (Hsp s eq_refl Hs). simpl. apply String.eqb_refl.
  - cbn in Htc. inversion Htc; subst; clear Htc. cbn.
    rewrite (Hsz s eq_refl Hs). simpl. apply String.eqb_refl.
  - cbn in Htc. unfold compile_entry in Htc. cbn in Htc.
    destruct (regex p "i") as [search|] eqn:R; [|discriminate].
    cbn in Htc. inversion Htc; subst; clear Htc. cbn.
    destruct (Hq p search eq_refl Hp R)
      as [(t & Et & Ht)|[(t & Et & Ht)|(t & Et & Ht)]];
      rewrite Et; simpl; rewrite Ht; rewrite ?orb_true_r; reflexivity.
Qed.

Lemma Forall2_In_l {A B} (R : A -> B -> Prop) (xs : list A) (ys : list B) x :
  Forall2 R xs ys -> In x xs -> exists y, In y ys /\ R x y.
Proof.
  induction 1 as [|x' y xs ys Hxy _ IH]; simpl; [contradiction|].
  intros [<-|Hin]; [eauto|].
  destruct (IH Hin) as [y0 [? ?]]; eauto.
Qed.

(** The first exception of a comprehension is the exception of one of its
    elements, and an element that raises makes the comprehension raise. *)
Lemma collect_inl {A B} (f : A -> result B) (xs : list A) (e : exn) :
  collect f xs = inl e -> exists x, In x xs /\ f x = inl e.
Proof.
  induction xs as [|x xs IH]; simpl; [discriminate|].
  destruct (f x) as [e'|b] eqn:Hx.
  - intros H; inversion H; subst. eauto.
  - destruct (collect f xs) as [e'|bs]; [|discriminate].
    intros H; inversion H; subst. destruct (IH eq_refl) as [x0 [? ?]]; eauto.
Qed.

Lemma collect_raises {A B} (f : A -> result B) (xs : list A) x (e : exn) :
  In x xs -> f x = inl e -> exists e', collect f xs = inl e'.
Proof.
  induction xs as [|x' xs IH]; simpl; [contradiction|].
  intros [->|Hin] Hx.
  - rewrite Hx. eauto.
  - destruct (f x') as [e'|b]; [eauto|].
    destruct (IH Hin Hx) as [e' ->]. eauto.
Qed.

Lemma from_mongo_raises_validation (doc : document Pet.t) (e : exn) :
  PetOut.from_mongo doc = inl e -> exists missing, e = ValidationError missing.
Proof.
  unfold PetOut.from_mongo, PetOut.init. cbv zeta.
  destruct (get (Pet.name (body doc))), (get (Pet.species (body doc))),
    (match get (Pet.age_years (body doc)) with
     | Some a => to_float a
     | None => None
     end), (get (Pet.gender (body doc))),
    (get (Pet.size (body doc))),
    (get_default (Pet.is_adopted (body doc)) false);
    intros H; inversion H; eauto.
Qed.

(** X1. [list_pets] only reads: in every world the handle and the store
    behind it are afterwards as before, and the only request sent is the
    one [find] with the filter built from the parameters (none when the
    handle is not configured). *)
Theorem list_pets_reads_only regex (species size q : option string)
    (w : world) :
  db (snd (list_pets regex species size q w)) = db w
  /\ sent (snd (list_pets regex species size q w))
     = sent w ++ match db w with
                 | Some _ => [Find "pet" (filter_of species size q)]
                 | None => []
                 end.
Proof.
  destruct w as [[[name [s|reason]]|] env sent0].
  - rewrite list_pets_run. simpl. auto.
  - split; reflexivity.
  - simpl. rewrite app_nil_r. split; reflexivity.
Qed.

(** X2. [list_pets] leaves no match out: when it succeeds, every stored
    pet whose [is_adopted] is false and which meets each filter that is
    given and not empty has its view in the result. *)
Theorem list_pets_returns_every_match regex (species size q : option string)
    (w w' : world) (out : list PetOut.t) (d : document Pet.t) :
  list_pets regex species size q w = (inr out, w') ->
  In d (stored_pets w) ->
  Pet.is_adopted (body d) = Val false ->
  (forall s, species = Some s -> s <> "" -> Pet.species (body d) = Val s) ->
  (forall s, size = Some s -> s <> "" -> Pet.size (body d) = Val s) ->
  (forall p search, q = Some p -> p <> "" -> regex p "i" = Some search ->
     (exists t, Pet.name (body d) = Val t /\ search t = true)
     \/ (exists t, Pet.description (body d) = Val t /\ search t = true)
     \/ (exists t, Pet.location (body d) = Val t /\ search t = true)) ->
  exists v, PetOut.from_mongo d = inr v /\ In v out.
Proof.
  intros H Hd Had Hsp Hsz Hq.
  destruct (list_pets_inr _ _ _ _ _ _ _ H) as [test [Hc Hcol]].
  pose proof (matching_pet_passes _ _ _ _ _ d Hc Had Hsp Hsz Hq) as Ht.
  apply collect_Forall2 in Hcol.
  destruct (Forall2_In_l _ _ _ d Hcol) as [v [Hv Hdv]].
  - apply filter_In. split; assumption.
  - exists v; split; assumption.
Qed.

Lemma list_pets_returns_every_match_witness :
  exists out w' d v,
    list_pets Wildcard.regex (Some "Cat") None None seeded_world
    = (inr out, w')
    /\ In d (stored_pets seeded_world)
    /\ Pet.is_adopted (body d) = Val false
    /\ Pet.species (body d) = Val "Cat"
    /\ PetOut.from_mongo d = inr v /\ In v out.
Proof.
  pose (d := Document 1%N (nth 1 sample_pets rex)).
  assert (Hrun : exists out w',
             list_pets Wildcard.regex (Some "Cat") None None seeded_world
             = (inr out, w')).
  { eexists. eexists. vm_compute. reflexivity. }
  destruct Hrun as [out [w' Hrun]].
  assert (Hin : In d (stored_pets seeded_world))
    by (right; left; reflexivity).
  destruct (list_pets_returns_every_match Wildcard.regex (Some "Cat") None
              None seeded_world w' out d Hrun Hin eq_refl)
    as [v [Hv Hout]].
  - intros s E _. injection E as <-. reflexivity.
  - intros s E. discriminate.
  - intros p search E. discriminate.
  - exists out, w', d, v. repeat split; assumption || reflexivity.
Defined.

(** X3. One incomplete document fails the whole listing: behind an
    answering server, when a stored pet passes the filters but lacks a
    required key, [list_pets] returns nothing and raises a validation
    error. *)
Theorem list_pets_fails_on_incomplete regex (species size q : option string)
    (name : string) (s : store) env sent0 (d : document Pet.t) (e : exn) :
  In d (pet s) ->
  Pet.is_adopted (body d) = Val false ->
  (forall t, species = Some t -> t <> "" -> Pet.species (body d) = Val t) ->
  (forall t, size = Some t -> t <> "" -> Pet.size (body d) = Val t) ->
  (forall p, q = Some p -> p <> "" ->
     exists search,
       regex p "i" = Some search
       /\ ((exists t, Pet.name (body d) = Val t /\ search t = true)
           \/ (exists t, Pet.description (body d) = Val t /\ search t = true)
           \/ (exists t, Pet.location (body d) = Val t /\ search t = true))) ->
  PetOut.from_mongo d = inl e ->
  exists missing,
    fst (list_pets regex species size q
           (World (Some (Database.mk name (Up s))) env sent0))
    = inl (ValidationError missing).
Proof.
  intros Hd Had Hsp Hsz Hq He.
  rewrite list_pets_run. simpl.
  destruct (filter_of_compiles regex species size q) as [test Hc].
  { intros p Ep Hp. destruct (Hq p Ep Hp) as [search [Hs _]]. eauto. }
  rewrite Hc.
  assert (Ht : test (Pet.lookup (body d)) = true).
  { apply (matching_pet_passes regex species size q); auto.
    intros p search Ep Hp R.
    destruct (Hq p Ep Hp) as [search' [Hs Hm]].
    rewrite R in Hs. inversion Hs; subst. exact Hm. }
  destruct (collect_raises PetOut.from_mongo
              (List.filter (fun d => test (Pet.lookup (body d))) (pet s)) d e)
    as [e' He']; [apply filter_In; auto|exact He|].
  rewrite He'.
  destruct (collect_inl _ _ _ He') as [x [_ Hx]].
  destruct (from_mongo_raises_validation _ _ Hx) as [missing ->].
  eauto.
Qed.

Lemma list_pets_fails_on_incomplete_witness :
  In nameless (stored_pets seeded_world ++ [nameless])
  /\ Pet.is_adopted (body nameless) = Val false
  /\ PetOut.from_mongo nameless = inl (ValidationError ["name"])
  /\ exists missing,
       fst (list_pets Wildcard.regex None None None
              (World (Some (Database.mk "paws"
                       (Up (Store (stored_pets seeded_world ++ [nameless])
                                  [] [] 8))))
                     no_environ []))
       = inl (ValidationError missing).
Proof.
  assert (Hin : In nameless (stored_pets seeded_world ++ [nameless]))
    by (apply in_or_app; right; left; reflexivity).
  split; [exact Hin|]. split; [reflexivity|]. split; [reflexivity|].
  apply (list_pets_fails_on_incomplete Wildcard.regex None None None "paws"
           (Store (stored_pets seeded_world ++ [nameless]) [] [] 8)
           no_environ [] nameless (ValidationError ["name"]) Hin eq_refl);
    try discriminate.
  reflexivity.
Defined.

(** X4. Filters only narrow: when the listing with filters and the
    listing without any both succeed in the same world, every view of the
    first is a view of the second. *)
Theorem list_pets_filters_narrow regex (species size q : option string)
    (w w1 w2 : world) (out all : list PetOut.t) :
  list_pets regex species size q w = (inr out, w1) ->
  list_pets regex None None None w = (inr all, w2) ->
  incl out all.
Proof.
  intros Hf Ha v Hv.
  destruct (list_pets_origin _ _ _ _ _ _ _ Hf) as [selected [HF [Hincl Hsel]]].
  destruct (Forall2_In_r _ _ _ _ HF Hv) as [d [Hd Hdv]].
  destruct (Hsel d _ Hd (filter_of_is_adopted species size q)) as [tc [Hc Ht]].
  pose proof (selected_not_adopted _ _ _ Hc Ht) as Had.
  destruct (list_pets_inr _ _ _ _ _ _ _ Ha) as [test [Hc0 Hcol]].
  assert (Ht0 : test (Pet.lookup (body d)) = true).
  { apply (matching_pet_passes regex None None None); auto; discriminate. }
  apply collect_Forall2 in Hcol.
  destruct (Forall2_In_l _ _ _ d Hcol) as [v' [Hv' Hdv']].
  - apply filter_In. split; [apply Hincl, Hd|exact Ht0].
  - rewrite Hdv in Hdv'. inversion Hdv'; subst. exact Hv'.
Qed.

Lemma list_pets_filters_narrow_witness :
  exists out w1 all w2,
    list_pets Wildcard.regex (Some "Dog") (Some "Small") None seeded_world
    = (inr out, w1)
    /\ list_pets Wildcard.regex None None None seeded_world = (inr all, w2)
    /\ length out = 1 /\ length all = 3
    /\ incl out all.
Proof.
  eexists. eexists. eexists. eexists.
  split; [vm_compute; reflexivity|].
  split; [vm_compute; reflexivity|].
  split; [reflexivity|]. split; [reflexivity|].
  eapply (list_pets_filters_narrow Wildcard.regex (Some "Dog") (Some "Small")
            None seeded_world); vm_compute; reflexivity.
Defined.

(** ** More on the adoption request intake *)



Lemma invalid_id_run (req : Adoptionrequest.t) (d : Database.t) env sent0 :
  ObjectId.parse (Adoptionrequest.pet_id req) = None ->
  create_adoption_request req (World (Some d) env sent0)
  = (inl (HTTPException 400 "Invalid pet ID"), World (Some d) env sent0).
Proof.
  intros Hp. unfold create_adoption_request, bind, the_db. simpl.
  rewrite Hp. reflexivity.
Qed.

Lemma unreachable_lookup_run (req : Adoptionrequest.t) (name reason : string)
    env sent0 (oid : ObjectId.t) :
  ObjectId.parse (Adoptionrequest.pet_id req) = Some oid ->
  create_adoption_request req
    (World (Some (Database.mk name (Down reason))) env sent0)
  = (inl (Exception reason),
     World (Some (Database.mk name (Down reason))) env
           (sent0 ++ [FindOne "pet" oid])).
Proof.
  intros Hp. unfold create_adoption_request, bind, the_db. simpl.
  rewrite Hp. reflexivity.
Qed.


(** X6. Filing a request never touches the pets: in every world, and
    whatever the outcome, the pet collection is afterwards as before, and
    so is the answer of [list_pets] for any filters: a pet stays listed
    after a request for it was received. *)
Theorem adoption_leaves_catalogue regex (req : Adoptionrequest.t)
    (species size q : option string) (w : world) :
  stored_pets (snd (create_adoption_request req w)) = stored_pets w
  /\ fst (list_pets regex species size q (snd (create_adoption_request req w)))
     = fst (list_pets regex species size q w).
Proof.
  destruct w as [[[name [s|reason]]|] env sent0].
  - destruct (ObjectId.parse (Adoptionrequest.pet_id req)) as [oid|] eqn:Hp.
    + destruct (first_with_id oid (pet s)) as [p|] eqn:Hf.
      * rewrite (create_adoption_request_found req name s env sent0 oid p Hp Hf).
        simpl. rewrite !list_pets_run. simpl. auto.
      * rewrite (create_adoption_request_missing req name s env sent0 oid Hp Hf).
        simpl. rewrite !list_pets_run. simpl. auto.
    + rewrite (invalid_id_run req _ env sent0 Hp). auto.
  - destruct (ObjectId.parse (Adoptionrequest.pet_id req)) as [oid|] eqn:Hp.
    + rewrite (unreachable_lookup_run req name reason env sent0 oid Hp).
      split; reflexivity.
    + rewrite (invalid_id_run req _ env sent0 Hp). auto.
  - split; reflexivity.
Qed.

(** X7. What is listed can be asked for: in a store whose identifiers come
    from its counter, the [id] of any view that [list_pets] returned is a
    [pet_id] that [create_adoption_request] accepts, and the request
    identifier it gives back differs from it. *)
Theorem listed_pet_can_be_requested regex (species size q : option string)
    (name : string) (s : store) env sent0 (w' : world)
    (out : list PetOut.t) (v : PetOut.t) (fields : list (string * string)) :
  list_pets regex species size q
    (World (Some (Database.mk name (Up s))) env sent0) = (inr out, w') ->
  store_wf s ->
  In v out ->
  exists receipt w'',
    create_adoption_request (Adoptionrequest.mk (PetOut.id v) fields) w'
    = (inr receipt, w'')
    /\ AdoptionReceipt.request_id receipt <> PetOut.id v.
Proof.
  intros H (Hpets & _ & Hb) Hv.
  destruct (list_pets_origin _ _ _ _ _ _ _ H) as [selected [HF [Hincl _]]].
  destruct (Forall2_In_r _ _ _ _ HF Hv) as [d [Hd Hdv]].
  apply Hincl in Hd. simpl in Hd.
  apply from_mongo_inr in Hdv. destruct Hdv as [Hid _].
  pose proof (Hpets d Hd) as Hlt.
  assert (Hp : ObjectId.parse (PetOut.id v) = Some (_id d)).
  { rewrite Hid. apply ObjectIdFacts.parse_str. lia. }
  destruct (first_with_id_some (_id d) (pet s) d Hd eq_refl) as [p [Hf _]].
  rewrite list_pets_run in H. injection H as _ Hw. subst w'.
  eexists. eexists. split.
  - apply (create_adoption_request_found
             (Adoptionrequest.mk (PetOut.id v) fields) name s env _ (_id d) p
             Hp Hf).
  - simpl. rewrite Hid. intros E. apply str_injective in E; lia.
Qed.

Lemma listed_pet_can_be_requested_witness :
  exists out w' v receipt w'',
    list_pets Wildcard.regex (Some "Cat") None None
      (World (Some (Database.mk "paws"
                      (Up (Store (stored_pets seeded_world) [] [] 3))))
             no_environ [])
    = (inr out, w')
    /\ store_wf (Store (stored_pets seeded_world) [] [] 3)
    /\ In v out
    /\ create_adoption_request (Adoptionrequest.mk (PetOut.id v) []) w'
       = (inr receipt, w'')
    /\ AdoptionReceipt.request_id receipt <> PetOut.id v.
Proof.
  assert (Hrun : exists out w' v,
             list_pets Wildcard.regex (Some "Cat") None None
               (World (Some (Database.mk "paws"
                               (Up (Store (stored_pets seeded_world) [] [] 3))))
                      no_environ [])
             = (inr out, w') /\ In v out).
  { eexists. eexists. eexists. split; [vm_compute; reflexivity|].
    left. reflexivity. }
  destruct Hrun as [out [w' [v [Hrun Hv]]]].
  destruct (listed_pet_can_be_requested Wildcard.regex (Some "Cat") None None
              "paws" (Store (stored_pets seeded_world) [] [] 3) no_environ []
              w' out v [] Hrun seeded_store_wf Hv)
    as [receipt [w'' [Hreq Hneq]]].
  exists out, w', v, receipt, w''.
  split; [exact Hrun|]. split; [exact seeded_store_wf|].
  split; [exact Hv|]. split; [exact Hreq|exact Hneq].
Defined.

(** X8. Two requests in a row, each for a stored pet, are both stored, one
    after the other at the end of the collection, under the two next
    identifiers of the counter, and their request identifiers differ. *)
Theorem two_requests_get_distinct_identifiers (req1 req2 : Adoptionrequest.t)
    (name : string) (s : store) env sent0 (oid1 oid2 : ObjectId.t)
    (p1 p2 : document Pet.t) :
  ObjectId.parse (Adoptionrequest.pet_id req1) = Some oid1 ->
  first_with_id oid1 (pet s) = Some p1 ->
  ObjectId.parse (Adoptionrequest.pet_id req2) = Some oid2 ->
  first_with_id oid2 (pet s) = Some p2 ->
  (N.succ (next_oid s) < ObjectId.bound)%N ->
  exists r1 w1 r2 s2 sent2,
    create_adoption_request req1
      (World (Some (Database.mk name (Up s))) env sent0) = (inr r1, w1)
    /\ create_adoption_request req2 w1
       = (inr r2, World (Some (Database.mk name (Up s2))) env sent2)
    /\ adoptionrequest s2
       = adoptionrequest s
         ++ [Document (next_oid s) req1; Document (N.succ (next_oid s)) req2]
    /\ pet s2 = pet s
    /\ AdoptionReceipt.request_id r1 <> AdoptionReceipt.request_id r2.
Proof.
  intros Hp1 Hf1 Hp2 Hf2 Hb.
  eexists. eexists. eexists. eexists. eexists.
  split; [apply (create_adoption_request_found req1 name s env sent0 oid1 p1
                   Hp1 Hf1)|].
  split; [apply (create_adoption_request_found req2 name
                   (Store (pet s)
                          (adoptionrequest s ++ [Document (next_oid s) req1])
                          (other_collections s) (N.succ (next_oid s)))
                   env _ oid2 p2 Hp2 Hf2)|].
  simpl. split; [rewrite <- app_assoc; reflexivity|].
  split; [reflexivity|].
  intros E. apply str_injective in E; lia.
Qed.

Lemma two_requests_get_distinct_identifiers_witness :
  exists r1 w1 r2 s2 sent2,
    create_adoption_request
      (Adoptionrequest.mk "000000000000000000000000" [])
      (World (Some (Database.mk "paws"
                      (Up (Store (stored_pets seeded_world) [] [] 3))))
             no_environ []) = (inr r1, w1)
    /\ create_adoption_request
         (Adoptionrequest.mk "000000000000000000000002" []) w1
       = (inr r2, World (Some (Database.mk "paws" (Up s2))) no_environ sent2)
    /\ adoptionrequest s2
       = [] ++ [Document 3%N (Adoptionrequest.mk "000000000000000000000000" []);
                Document (N.succ 3)
                  (Adoptionrequest.mk "000000000000000000000002" [])]
    /\ pet s2 = stored_pets seeded_world
    /\ AdoptionReceipt.request_id r1 <> AdoptionReceipt.request_id r2.
Proof.
  exact (two_requests_get_distinct_identifiers
           (Adoptionrequest.mk "000000000000000000000000" [])
           (Adoptionrequest.mk "000000000000000000000002" [])
           "paws" (Store (stored_pets seeded_world) [] [] 3) no_environ []
           0%N 2%N (Document 0%N (nth 0 sample_pets rex))
           (Document 2%N (nth 2 sample_pets rex))
           eq_refl eq_refl eq_refl eq_refl eq_refl).
Defined.

(** X9. The [id] of a view is the 24 digits of the document's [_id], and
    two views have the same [id] exactly when their documents have the
    same [_id]. *)
Theorem view_id_identifies_document (d1 d2 : document Pet.t)
    (v1 v2 : PetOut.t) :
  PetOut.from_mongo d1 = inr v1 ->
  PetOut.from_mongo d2 = inr v2 ->
  (_id d1 < ObjectId.bound)%N ->
  (_id d2 < ObjectId.bound)%N ->
  String.length (PetOut.id v1) = 24
  /\ ObjectId.parse (PetOut.id v1) = Some (_id d1)
  /\ (PetOut.id v1 = PetOut.id v2 <-> _id d1 = _id d2).
Proof.
  intros H1 H2 B1 B2.
  apply from_mongo_inr in H1. destruct H1 as [E1 _].
  apply from_mongo_inr in H2. destruct H2 as [E2 _].
  rewrite E1, E2.
  split; [apply ObjectIdFacts.str_length|].
  split; [apply ObjectIdFacts.parse_str, B1|].
  split; [apply str_injective; assumption|congruence].
Qed.

Lemma view_id_identifies_document_witness :
  exists v1 v2,
    PetOut.from_mongo (Document 0%N (nth 0 sample_pets rex)) = inr v1
    /\ PetOut.from_mongo bare = inr v2
    /\ String.length (PetOut.id v1) = 24
    /\ ObjectId.parse (PetOut.id v1) = Some 0%N
    /\ (PetOut.id v1 = PetOut.id v2 <-> 0%N = 8%N).
Proof.
  eexists. eexists. split; [reflexivity|]. split; [reflexivity|].
  exact (view_id_identifies_document (Document 0%N (nth 0 sample_pets rex))
           bare _ _ eq_refl eq_refl eq_refl eq_refl).
Defined.

(** ** More on seeding *)

(** X10. Behind an answering server [seed_pets] always succeeds and only
    ever adds pets: the pets stored before are still there, in place,
    followed by what was added; the pet collection is not empty
    afterwards; the adoption requests and the other collections are as
    before; and the reported count is the number of pets now stored. *)
Theorem seed_pets_only_adds (name : string) (s : store) env sent0 :
  exists report s' sent',
    seed_pets (World (Some (Database.mk name (Up s))) env sent0)
    = (inr report, World (Some (Database.mk name (Up s'))) env sent')
    /\ (exists added, pet s' = pet s ++ added)
    /\ pet s' <> []
    /\ adoptionrequest s' = adoptionrequest s
    /\ other_collections s' = other_collections s
    /\ SeedReport.count report = Z.of_nat (length (pet s')).
Proof.
  destruct (pet s) as [|d l] eqn:E.
  - eexists. eexists. eexists.
    split; [apply seed_pets_on_empty, E|].
    simpl.
    split; [eexists; reflexivity|].
    split; [discriminate|]. repeat split.
  - eexists. eexists. eexists.
    split; [apply seed_pets_on_nonempty; rewrite E; discriminate|].
    rewrite E.
    split; [exists []; rewrite app_nil_r; reflexivity|].
    split; [discriminate|]. repeat split.
Qed.

(** X11. Seeding is idempotent from any store: behind an answering server,
    whatever the pet collection holds at first, a second call right after
    the first reports "Already seeded" with the count the first one
    reported and leaves the store as the first one left it. *)
Theorem seed_pets_is_idempotent (name : string) (s : store) env sent0 :
  exists r1 w1 r2 w2,
    seed_pets (World (Some (Database.mk name (Up s))) env sent0) = (inr r1, w1)
    /\ seed_pets w1 = (inr r2, w2)
    /\ db w2 = db w1
    /\ r2 = SeedReport.mk "Already seeded" (SeedReport.count r1).
Proof.
  destruct (pet s) as [|d l] eqn:E.
  - eexists. eexists. eexists. eexists.
    split; [apply seed_pets_on_empty, E|].
    split; [apply seed_pets_on_nonempty; discriminate|].
    split; reflexivity.
  - eexists. eexists. eexists. eexists.
    split; [apply seed_pets_on_nonempty; rewrite E; discriminate|].
    split; [apply seed_pets_on_nonempty; rewrite E; discriminate|].
    split; reflexivity.
Qed.

(** X12. The fixtures are complete pets: after seeding an empty pet
    collection, the listing without filters succeeds and returns, in some
    order, the three fixtures Mocha, Miso and Taro, each under the
    identifier the counter gave it; and the listing for species "Dog"
    returns Mocha alone. *)
Theorem seeded_pets_are_listed regex (name : string) (s : store) env sent0 :
  pet s = [] ->
  exists report w1 out w2 dogs w3,
    seed_pets (World (Some (Database.mk name (Up s))) env sent0)
    = (inr report, w1)
    /\ list_pets regex None None None w1 = (inr out, w2)
    /\ Permutation
         (map (fun v => (PetOut.name v, PetOut.id v)) out)
         [("Mocha", ObjectId.str (next_oid s));
          ("Miso", ObjectId.str (N.succ (next_oid s)));
          ("Taro", ObjectId.str (N.succ (N.succ (next_oid s))))]
    /\ list_pets regex (Some "Dog") None None w1 = (inr dogs, w3)
    /\ map PetOut.name dogs = ["Mocha"].
Proof.
  intros E.
  eexists. eexists. eexists. eexists. eexists. eexists.
  split; [apply seed_pets_on_empty, E|].
  rewrite !list_pets_run.
  split; [reflexivity|].
  split; [apply Permutation_refl|].
  split; reflexivity.
Qed.

Lemma seeded_pets_are_listed_witness :
  pet empty_store = []
  /\ exists report w1 out w2 dogs w3,
       seed_pets fresh_world = (inr report, w1)
       /\ list_pets Wildcard.regex None None None w1 = (inr out, w2)
       /\ Permutation
            (map (fun v => (PetOut.name v, PetOut.id v)) out)
            [("Mocha", ObjectId.str 0%N);
             ("Miso", ObjectId.str (N.succ 0));
             ("Taro", ObjectId.str (N.succ (N.succ 0)))]
       /\ list_pets Wildcard.regex (Some "Dog") None None w1 = (inr dogs, w3)
       /\ map PetOut.name dogs = ["Mocha"].
Proof.
  split; [reflexivity|].
  exact (seeded_pets_are_listed Wildcard.regex "paws" empty_store no_environ []
           eq_refl).
Defined.

(** X13. The two writing endpoints answer 500 "Database not configured"
    exactly when the handle is not configured: in every other world they
    answer something else. *)
Theorem configuration_error_iff (req : Adoptionrequest.t) (w : world) :
  (fst (seed_pets w) = inl (HTTPException 500 "Database not configured")
   <-> db w = None)
  /\ (fst (create_adoption_request req w)
      = inl (HTTPException 500 "Database not configured")
      <-> db w = None).
Proof.
  destruct w as [[[name [s|reason]]|] env sent0]; simpl.
  - split.
    + destruct (pet s) as [|d l] eqn:E.
      * rewrite (seed_pets_on_empty name s env sent0 E). simpl.
        split; discriminate.
      * rewrite (seed_pets_on_nonempty name s env sent0)
          by (rewrite E; discriminate).
        simpl. split; discriminate.
    + destruct (ObjectId.parse (Adoptionrequest.pet_id req)) as [oid|] eqn:Hp.
      * destruct (first_with_id oid (pet s)) as [p|] eqn:Hf.
        -- rewrite (create_adoption_request_found req name s env sent0 oid p
                      Hp Hf). simpl. split; discriminate.
        -- rewrite (create_adoption_request_missing req name s env sent0 oid
                      Hp Hf). simpl. split; discriminate.
      * rewrite (invalid_id_run req _ env sent0 Hp). simpl.
        split; discriminate.
  - split.
    + split; discriminate.
    + destruct (ObjectId.parse (Adoptionrequest.pet_id req)) as [oid|] eqn:Hp.
      * rewrite (unreachable_lookup_run req name reason env sent0 oid Hp).
        simpl. split; discriminate.
      * rewrite (invalid_id_run req _ env sent0 Hp). simpl.
        split; discriminate.
  - split; split; reflexivity.
Qed.

(** ** More on the status report *)

(** X14. The two configuration entries of the report say only whether the
    environment variables are set to a non-empty value: in every world,
    configured or not, [database_url] and [database_name] are "Set" or
    "Not Set" after [DATABASE_URL] and [DATABASE_NAME], and never the name
    of the database. *)
Theorem test_database_reports_environment (w : world) :
  exists report w',
    test_database w = (inr report, w')
    /\ StatusReport.database_url report
       = Some (if Text.truthy (environ w "DATABASE_URL")
               then "✅ Set" else "❌ Not Set")
    /\ StatusReport.database_name report
       = Some (if Text.truthy (environ w "DATABASE_NAME")
               then "✅ Set" else "❌ Not Set").
Proof.
  destruct w as [[[name [s|reason]]|] env sent0];
    eexists; eexists; (split; [reflexivity|]); split; reflexivity.
Qed.

Lemma test_database_up (name : string) (s : store) env sent0 :
  test_database (World (Some (Database.mk name (Up s))) env sent0)
  = (inr (StatusReport.mk "✅ Running" "✅ Connected & Working"
            (Some (if Text.truthy (env "DATABASE_URL")
                   then "✅ Set" else "❌ Not Set"))
            (Some (if Text.truthy (env "DATABASE_NAME")
                   then "✅ Set" else "❌ Not Set"))
            "Connected" (firstn 10 (collection_names s))),
     World (Some (Database.mk name (Up s))) env
           (sent0 ++ [ListCollectionNames])).
Proof. reflexivity. Qed.

(** X15. The report never lists more than ten collections.  Without a
    handle it says "not initialized" and "Not Connected"; with a handle it
    says "Connected", and when the server answers, "Connected & Working"
    with the first ten of the collection names; when the server does not
    answer it lists none. *)
Theorem test_database_status (w : world) :
  exists report w',
    test_database w = (inr report, w')
    /\ length (StatusReport.collections report) <= 10
    /\ StatusReport.backend report = "✅ Running"
    /\ match db w with
       | None =>
           StatusReport.database report = "⚠️  Available but not initialized"
           /\ StatusReport.connection_status report = "Not Connected"
           /\ StatusReport.collections report = []
       | Some d =>
           StatusReport.connection_status report = "Connected"
           /\ match Database.host d with
              | Up s =>
                  StatusReport.database report = "✅ Connected & Working"
                  /\ StatusReport.collections report
                     = firstn 10 (collection_names s)
              | Down _ => StatusReport.collections report = []
              end
       end.
Proof.
  destruct w as [[[name [s|reason]]|] env sent0].
  - eexists. eexists. split; [apply test_database_up|].
    cbn [StatusReport.collections StatusReport.backend StatusReport.database
         StatusReport.connection_status db Database.host].
    split; [apply firstn_le_length|]. repeat split.
  - eexists. eexists. split; [reflexivity|]. simpl.
    split; [lia|]. repeat split.
  - eexists. eexists. split; [reflexivity|]. simpl.
    split; [lia|]. repeat split.
Qed.

(** With twelve other collections besides the pets, ten names are shown. *)
Example test_database_crowded :
  exists report w',
    test_database (World (Some (Database.mk "paws" (Up crowded_store)))
                         no_environ []) = (inr report, w')
    /\ length (collection_names crowded_store) = 13
    /\ StatusReport.collections report
       = ["pet"; "c01"; "c02"; "c03"; "c04"; "c05"; "c06"; "c07"; "c08"; "c09"].
Proof. eexists. eexists. repeat split. Qed.

(** X16. The status report only reads: in every world the handle and the
    store behind it are afterwards as before, and the only request sent is
    the one for the collection names (none without a handle). *)
Theorem test_database_reads_only (w : world) :
  db (snd (test_database w)) = db w
  /\ sent (snd (test_database w))
     = sent w ++ match db w with
                 | Some _ => [ListCollectionNames]
                 | None => []
                 end.
Proof.
  destruct w as [[[name [s|reason]]|] env sent0]; simpl.
  - split; reflexivity.
  - split; reflexivity.
  - rewrite app_nil_r. split; reflexivity.
Qed.
